(** * NanoWatchdog: the persistent event log

    A shallow embedding of the Arduino library of the NanoWatchdog
    (nwReason.cpp, nwEvent.cpp, nwEEPROM.cpp and their headers) and the
    verification of its event record serialisation and of the
    shift-on-insert log kept in the EEPROM.

    The target is the Arduino Nano (ATmega328, avr-gcc): [int] is a 16-bit
    two's complement integer, [time_t] is an unsigned 32-bit integer, a
    [byte] is 8 bits, the machine is little-endian and structures are laid
    out without padding. *)

From Stdlib Require Import ZArith Lia List Bool.
From Stdlib Require Import Init.Byte Strings.Byte Strings.Ascii Strings.String.
From stdpp Require Import base tactics option list numbers functions.

Local Open Scope Z_scope.

(** ** The AVR machine types *)

Module AVR.

(** Conversion of an integer to [uint8_t]: the low eight bits. *)
Definition byte_of_Z (z : Z) : byte :=
  default x00 (Byte.of_N (Z.to_N (z mod 256))).

(** Integer promotion of a [uint8_t]. *)
Definition byte_to_Z (b : byte) : Z := Z.of_N (Byte.to_N b).

(** A 16-bit [int]: the result of an arithmetic operation is reduced to
    the range -32768..32767 (signed overflow is undefined in C; avr-gcc
    wraps around). *)
Definition int_wrap (z : Z) : Z := (z + 32768) mod 65536 - 32768.

Definition sizeof_char   : Z := 1.
Definition sizeof_byte   : Z := 1.
Definition sizeof_int    : Z := 2.
Definition sizeof_time_t : Z := 4.

(** Object representation of an unsigned integer: [n] bytes, least
    significant first. *)
Fixpoint le_encode (n : nat) (z : Z) : list byte :=
  match n with
  | O => []
  | S k => byte_of_Z z :: le_encode k (z / 256)
  end.

Fixpoint le_decode (bs : list byte) : Z :=
  match bs with
  | [] => 0
  | b :: r => byte_to_Z b + 256 * le_decode r
  end.

(** The two bytes of an [int], and the [int] they represent. *)
Definition int_bytes (z : Z) : list byte := le_encode 2 z.
Definition int_of_bytes (bs : list byte) : Z := int_wrap (le_decode bs).

End AVR.
Import AVR.

#[global] Instance byte_inhabited : Inhabited byte := populate x00.

(** ** NanoWatchdog.h *)

(** max size of the version string, including null terminator *)
Definition nwVersionSize : Z := 32.

(** The version string as it lies in flash memory, with the terminator of
    the string literal. *)
Definition nwVersionString : list byte :=
  list_byte_of_string "NanoWatchdog v11.2017" ++ [x00].

(** ** nwReason.h *)

Definition NW_REASON_INIT          : Z := 0.
Definition NW_REASON_NOPING        : Z := 1.
Definition NW_REASON_DEFAULT       : Z := NW_REASON_NOPING.
Definition NW_REASON_COMMAND_START : Z := 16.
Definition NW_REASON_MAX           : Z := 127.

(** ** nwReason.cpp *)

Definition nwReasonString (code : Z) : string :=
  if code =? NW_REASON_INIT then "initialization"%string
  else if code =? NW_REASON_NOPING then "no ping"%string
  else if code >=? NW_REASON_COMMAND_START then "external command"%string
  else "unknown reason code"%string.

(** ** The board: EEPROM and clock

    [cells] is the content of the EEPROM, [accessed] the addresses that
    were read or written, most recent first, and [clock] what [now()] of
    the Time library returns. *)

Record World := mkWorld {
  cells    : Z -> byte;
  accessed : list Z;
  clock    : Z
}.

(** Code that uses the board is a state transformer. *)
Definition M (A : Type) : Type := World -> A * World.

Definition ret {A} (a : A) : M A := fun w => (a, w).
Definition bind {A B} (m : M A) (f : A -> M B) : M B :=
  fun w => let (a, w') := m w in f a w'.
Definition eval {A} (m : M A) (w : World) : A := fst (m w).
Definition exec {A} (m : M A) (w : World) : World := snd (m w).

Notation "x <- m ;; k" := (bind m (fun x => k))
  (at level 100, m at next level, right associativity).
Notation "m ;;; k" := (bind m (fun _ => k))
  (at level 100, right associativity).

(** [now()] *)
Definition now : M Z := fun w => (clock w, w).

(** Model of the Arduino EEPROM library (EEPROM.h, not part of the
    repository): [EEPROM.get( adr, t )] reads [sizeof( t )] consecutive
    cells starting at [adr] into the object representation of [t], and
    [EEPROM.put( adr, t )] updates as many cells from it. An update leaves
    the cell equal to the byte given. *)
Module EEPROM.

Definition read_byte (adr : Z) : M byte :=
  fun w => (cells w adr,
            mkWorld (cells w) (adr :: accessed w) (clock w)).

Definition update_byte (adr : Z) (b : byte) : M unit :=
  fun w => (tt, mkWorld (<[adr := b]> (cells w)) (adr :: accessed w) (clock w)).

Fixpoint get_bytes (adr : Z) (n : nat) : M (list byte) :=
  match n with
  | O => ret []
  | S k => b <- read_byte adr ;; r <- get_bytes (adr + 1) k ;; ret (b :: r)
  end.

Fixpoint put_bytes (adr : Z) (bs : list byte) : M unit :=
  match bs with
  | [] => ret tt
  | b :: r => update_byte adr b ;;; put_bytes (adr + 1) r
  end.

Definition get_int (adr : Z) : M Z :=
  bs <- get_bytes adr (Z.to_nat sizeof_int) ;; ret (int_of_bytes bs).

Definition put_int (adr : Z) (z : Z) : M unit :=
  put_bytes adr (int_bytes z).

End EEPROM.

(** ** nwEEPROM.h: the serialised structure and the layout *)

Record nwEventStr := mknwEventStr {
  version    : list byte;   (* char version[nwVersionSize] *)
  time       : Z;           (* time_t *)
  ack_reason : byte
}.

Definition nwEventStrSize : Z :=
  nwVersionSize * sizeof_char + sizeof_time_t + sizeof_byte.

Definition nwInitEventAdr  : Z := 0.
Definition nwResetCountAdr : Z := nwInitEventAdr + nwEventStrSize.
Definition nwResetEventAdr : Z := nwResetCountAdr + sizeof_int.

Definition EEPROM_SIZE        : Z := 1024.
Definition NW_MAX_RESET_EVENT : Z := 10.

(** Object representation of the structure. *)
Definition nwEventStr_bytes (ev : nwEventStr) : list byte :=
  version ev ++ le_encode (Z.to_nat sizeof_time_t) (time ev) ++ [ack_reason ev].

Definition nwEventStr_of_bytes (bs : list byte) : nwEventStr :=
  let n := Z.to_nat nwVersionSize in
  let t := Z.to_nat sizeof_time_t in
  mknwEventStr (take n bs)
               (le_decode (take t (drop n bs)))
               (drop (n + t) bs !!! 0%nat).

Definition EEPROM_get_nwEventStr (adr : Z) : M nwEventStr :=
  bs <- EEPROM.get_bytes adr (Z.to_nat nwEventStrSize) ;;
  ret (nwEventStr_of_bytes bs).

Definition EEPROM_put_nwEventStr (adr : Z) (ev : nwEventStr) : M unit :=
  EEPROM.put_bytes adr (nwEventStr_bytes ev).

(** ** nwEvent.h *)

Record nwEvent := mknwEvent {
  _version : list byte;   (* char _version[nwVersionSize] *)
  _time    : Z;           (* time_t *)
  _reason  : Z;           (* int *)
  _ack     : bool
}.

(** ** nwEvent.cpp *)

(** [for( int i=0 ; i<n ; ++i ) dst[i] = src[i];] *)
Definition copy_chars (n : nat) (src dst : list byte) : list byte :=
  foldl (fun d i => <[i := src !!! i]> d) dst (seq 0 n).

(** The copy loop of [setup]: [src] is what remains to be read of the
    string in flash, [i] the index to write. *)
Fixpoint setup_version (src : list byte) (i : nat) (v : list byte) : list byte :=
  match src with
  | [] => v
  | c :: rest =>
      let v' := <[i := c]> v in
      if Byte.eqb c x00 then v' else setup_version rest (S i) v'
  end.

Definition nwEvent_setup : M nwEvent :=
  let v := replicate (Z.to_nat nwVersionSize) x00 in
  let v := setup_version nwVersionString 0 v in
  t <- now ;;
  ret (mknwEvent v t NW_REASON_DEFAULT false).

(** [nwEvent::nwEvent()] *)
Definition nwEvent_new : M nwEvent := nwEvent_setup.

(** [nwEvent::nwEvent( int reason )] *)
Definition nwEvent_new_reason (reason : Z) : M nwEvent :=
  this <- nwEvent_setup ;;
  ret (mknwEvent (_version this) (_time this) reason (_ack this)).

Definition readFromEEPROM (this : nwEvent) (adr : Z) : M nwEvent :=
  ev <- EEPROM_get_nwEventStr adr ;;
  let v := copy_chars (Z.to_nat nwVersionSize) (version ev) (_version this) in
  let t := time ev in
  let r := Z.land (byte_to_Z (ack_reason ev)) 127 in
  let a := negb (Z.shiftr (byte_to_Z (ack_reason ev)) 7 =? 0) in
  ret (mknwEvent v t r a).

(** The structure written by [writeToEEPROM]; the local [ev] starts out
    with a zeroed version array, every element of which is assigned. *)
Definition nwEvent_to_Str (this : nwEvent) : nwEventStr :=
  let n := Z.to_nat nwVersionSize in
  let v := copy_chars n (_version this) (replicate n x00) in
  let t := _time this in
  let ar := byte_of_Z (_reason this) in
  let ar := byte_of_Z (Z.lor (byte_to_Z ar) (if _ack this then 128 else 0)) in
  mknwEventStr v t ar.

Definition writeToEEPROM (this : nwEvent) (adr : Z) : M unit :=
  EEPROM_put_nwEventStr adr (nwEvent_to_Str this).

Definition acknowledge (this : nwEvent) (ack : bool) : nwEvent :=
  mknwEvent (_version this) (_time this) (_reason this) ack.

Definition isNull (this : nwEvent) : bool := _time this =? 0.

(** ** nwEEPROM.cpp *)

Definition nwEEPROMInitEventGet : M nwEvent :=
  ev <- nwEvent_new ;; readFromEEPROM ev nwInitEventAdr.

Definition nwEEPROMInitEventSet (ev : nwEvent) : M unit :=
  writeToEEPROM ev nwInitEventAdr.

Definition nwEEPROMResetEventCountGet : M Z :=
  EEPROM.get_int nwResetCountAdr.

(** [nwResetEventAdr + index*nwEventStrSize], in [int] arithmetic. *)
Definition nwResetEventSlotAdr (index : Z) : Z :=
  int_wrap (nwResetEventAdr + int_wrap (index * nwEventStrSize)).

Definition nwEEPROMResetEventGet (index : Z) : M nwEvent :=
  ev <- nwEvent_new ;; readFromEEPROM ev (nwResetEventSlotAdr index).

Definition nwEEPROMResetEventSet (ev : nwEvent) (index : Z) : M unit :=
  writeToEEPROM ev (nwResetEventSlotAdr index).

(** [for( int i=count ; i>0 ; --i )]: the body runs for
    [i = count, count-1, ..., 1], and not at all when [count <= 0];
    [shift_loop n] is the loop from [i = n] on. *)
Fixpoint shift_loop (n : nat) : M unit :=
  match n with
  | O => ret tt
  | S k =>
      ev_temp <- nwEEPROMResetEventGet (Z.of_nat (S k) - 1) ;;
      nwEEPROMResetEventSet ev_temp (Z.of_nat (S k)) ;;;
      shift_loop k
  end.

Definition nwEEPROMResetEventSetNew (ev : nwEvent) (index : Z) : M unit :=
  ev_temp <- nwEvent_new ;;
  count <- nwEEPROMResetEventCountGet ;;
  let count := if count =? NW_MAX_RESET_EVENT then int_wrap (count - 1) else count in
  shift_loop (Z.to_nat count) ;;;
  nwEEPROMResetEventSet ev 0 ;;;
  let count := int_wrap (count + 1) in
  EEPROM.put_int nwResetCountAdr count.

(** ** Observations on the board used in the statements *)

(** The [n] cells from [adr] on, and the cells after [bs] was stored from
    [adr] on. *)
Fixpoint peek (c : Z -> byte) (adr : Z) (n : nat) : list byte :=
  match n with
  | O => []
  | S k => c adr :: peek c (adr + 1) k
  end.

Fixpoint poke (c : Z -> byte) (adr : Z) (bs : list byte) : Z -> byte :=
  match bs with
  | [] => c
  | b :: r => poke (<[adr := b]> c) (adr + 1) r
  end.

Fixpoint addrs (adr : Z) (n : nat) : list Z :=
  match n with
  | O => []
  | S k => adr :: addrs (adr + 1) k
  end.

Definition touch (adr : Z) (n : nat) (w : World) : World :=
  mkWorld (cells w) (rev (addrs adr n) ++ accessed w) (clock w).

Definition store (adr : Z) (bs : list byte) (w : World) : World :=
  mkWorld (poke (cells w) adr bs) (rev (addrs adr (length bs)) ++ accessed w) (clock w).

(** The raw content of ring slot [i], and of the whole record at [adr]. *)
Definition record_bytes (w : World) (adr : Z) : list byte :=
  peek (cells w) adr (Z.to_nat nwEventStrSize).

Definition slot_bytes (w : World) (i : Z) : list byte :=
  record_bytes w (nwResetEventAdr + i * nwEventStrSize).

(** The in-memory event a stored structure deserialises to. *)
Definition nwEvent_of_Str (ev : nwEventStr) : nwEvent :=
  mknwEvent (version ev) (time ev)
            (Z.land (byte_to_Z (ack_reason ev)) 127)
            (negb (Z.shiftr (byte_to_Z (ack_reason ev)) 7 =? 0)).

(** What the C++ types guarantee of an event object: the version array
    has [nwVersionSize] elements and the time is a [time_t]. *)
Definition nwEvent_wf (ev : nwEvent) : Prop :=
  length (_version ev) = Z.to_nat nwVersionSize /\ 0 <= _time ev < 2 ^ 32.

(** A version array holds a terminator. *)
Definition null_terminated (v : list byte) : bool :=
  existsb (fun c => Byte.eqb c x00) (take (Z.to_nat nwVersionSize) v).

(** Every address accessed between [w] and [w'] lies in [lo, hi). *)
Definition accesses_within (lo hi : Z) (w w' : World) : Prop :=
  exists new, accessed w' = new ++ accessed w /\ Forall (fun a => lo <= a < hi) new.

(** The count that steers the loop of [nwEEPROMResetEventSetNew]; it is
    written back incremented. *)
Definition shift_count (w : World) : Z :=
  let count := eval nwEEPROMResetEventCountGet w in
  if count =? NW_MAX_RESET_EVENT then int_wrap (count - 1) else count.

(** Sample events: one as [nwEvent( NW_REASON_COMMAND_START )] builds it
    at time 1700000000, and one whose reason code has bit 7 set. *)
Definition sample_event : nwEvent :=
  eval (nwEvent_new_reason NW_REASON_COMMAND_START) (mkWorld (fun _ => xff) [] 1700000000).

Definition reason_128_event : nwEvent :=
  mknwEvent (_version sample_event) (_time sample_event) 128 false.

(** The four fields the serialisation is meant to preserve. *)
Definition stored_fields (ev : nwEvent) : list byte * Z * Z * bool :=
  (_version ev, _time ev, Z.land (_reason ev) 127, _ack ev).

Definition all_fields (ev : nwEvent) : list byte * Z * Z * bool :=
  (_version ev, _time ev, _reason ev, _ack ev).

(** An initialised log with no reset event, the log after two and after
    twelve insertions, and a log whose stored count is 11. *)
Definition blank : World := mkWorld (fun _ => x00) [] 0.

Definition event_at (t : Z) : nwEvent :=
  mknwEvent (_version sample_event) t NW_REASON_NOPING false.

Fixpoint insert_times (n : nat) (t : Z) (w : World) : World :=
  match n with
  | O => w
  | S k => insert_times k (t + 1) (exec (nwEEPROMResetEventSetNew (event_at t) 0) w)
  end.

Definition two_events : World := insert_times 2 1 blank.

Definition count_11 : World :=
  mkWorld (<[37 := x0b]> (fun _ => x00)) [] 0.

(** An erased EEPROM. *)
Definition erased : World := mkWorld (fun _ => xff) [] 0.

(** ** NanoWatchdog.cpp *)

(** The broken-down time of the Time library ([tmElements_t], which is
    not part of the repository): every field is a [uint8_t], and [Year]
    counts from 1970. *)
Record TimeElements := mkTimeElements {
  Second : Z;
  Minute : Z;
  Hour   : Z;
  Wday   : Z;
  Day    : Z;
  Month  : Z;
  Year   : Z
}.

Definition tmYearToCalendar (y : Z) : Z := y + 1970.

(** [String( n, DEC )] of the Arduino core, for an [n] that is not
    negative: the decimal digits, most significant first, without leading
    zero. The fuel covers the five digits of a 16-bit integer. *)
Definition digit_char (d : Z) : ascii := ascii_of_nat (48 + Z.to_nat d).

Fixpoint dec_digits (fuel : nat) (n : Z) (acc : string) : string :=
  match fuel with
  | O => acc
  | S f =>
      let acc' := String (digit_char (n mod 10)) acc in
      if n / 10 =? 0 then acc' else dec_digits f (n / 10) acc'
  end.

Definition String_DEC (n : Z) : string := dec_digits 5 n EmptyString.

(** [breakTime] of the Time library is taken as a parameter. *)
Definition nwDateTimeString (breakTime : Z -> TimeElements) (t : Z) : string :=
  let tm := breakTime t in
  let str := (String_DEC (tmYearToCalendar (Year tm)) ++ "-")%string in
  let str := if Month tm <? 10 then (str ++ "0")%string else str in
  let str := ((str ++ String_DEC (Month tm)) ++ "-")%string in
  let str := if Day tm <? 10 then (str ++ "0")%string else str in
  let str := ((str ++ String_DEC (Day tm)) ++ " ")%string in
  let str := if Hour tm <? 10 then (str ++ "0")%string else str in
  let str := ((str ++ String_DEC (Hour tm)) ++ ":")%string in
  let str := if Minute tm <? 10 then (str ++ "0")%string else str in
  let str := ((str ++ String_DEC (Minute tm)) ++ ":")%string in
  let str := if Second tm <? 10 then (str ++ "0")%string else str in
  let str := (str ++ String_DEC (Second tm))%string in
  (str ++ " UTC")%string.

(** ** Further observations *)

(** Two decimal digits, with a leading zero below ten. *)
Definition two_digits (n : Z) : string :=
  String (digit_char (n / 10)) (String (digit_char (n mod 10)) EmptyString).

(** A broken-down time as [breakTime] gives it: the fields are bytes, the
    month, day, hour, minute and second have at most two digits. *)
Definition TimeElements_wf (tm : TimeElements) : Prop :=
  0 <= Year tm < 256 /\
  0 <= Month tm < 100 /\ 0 <= Day tm < 100 /\
  0 <= Hour tm < 100 /\ 0 <= Minute tm < 100 /\ 0 <= Second tm < 100.

(** 2023-11-14 22:13:20, a Tuesday. *)
Definition sample_elements : TimeElements :=
  mkTimeElements 20 13 22 3 14 11 53.

(** The events of a list inserted one after the other, the head first. *)
Definition insert_all (evs : list nwEvent) (w : World) : World :=
  foldl (fun w ev => exec (nwEEPROMResetEventSetNew ev 0) w) w evs.

(** A full log: ten events with the times 1..10. *)
Definition full_log : World := insert_times 10 1 blank.

(** The full log with another byte in the oldest slot. *)
Definition full_log_other : World :=
  mkWorld (<[400 := xaa]> (cells full_log)) (accessed full_log) (clock full_log).

(** [w] and [w'] hold the same bytes except maybe in [lo, hi). *)
Definition same_cells_outside (lo hi : Z) (w w' : World) : Prop :=
  forall a, a < lo \/ hi <= a -> cells w a = cells w' a.

(** * Verification *)

(** ** Bytes and integers *)

Lemma byte_to_Z_range (b : byte) : 0 <= byte_to_Z b < 256.
Proof.
  unfold byte_to_Z. pose proof (Byte.to_N_bounded b). lia.
Qed.

Lemma byte_of_to_Z (b : byte) : byte_of_Z (byte_to_Z b) = b.
Proof.
  pose proof (byte_to_Z_range b) as Hb.
  unfold byte_of_Z. rewrite Z.mod_small by lia.
  unfold byte_to_Z. rewrite N2Z.id, Byte.of_to_N. reflexivity.
Qed.

Lemma byte_to_of_Z (z : Z) : byte_to_Z (byte_of_Z z) = z mod 256.
Proof.
  pose proof (Z.mod_pos_bound z 256 ltac:(lia)) as Hz.
  unfold byte_of_Z, byte_to_Z.
  destruct (Byte.of_N (Z.to_N (z mod 256))) as [b|] eqn:E.
  - apply Byte.to_of_N in E. simpl. rewrite E. lia.
  - apply Byte.of_N_None_iff in E. lia.
Qed.

Lemma byte_of_Z_mod (z : Z) : byte_of_Z (z mod 256) = byte_of_Z z.
Proof. unfold byte_of_Z. rewrite Z.mod_mod by lia. reflexivity. Qed.

Lemma int_wrap_small (z : Z) : -32768 <= z < 32768 -> int_wrap z = z.
Proof. intros Hz. unfold int_wrap. rewrite Z.mod_small by lia. lia. Qed.

Lemma le_encode_length (n : nat) (z : Z) : length (le_encode n z) = n.
Proof. revert z. induction n as [|n IH]; intros z; simpl; [|rewrite IH]; reflexivity. Qed.

Lemma le_decode_range (bs : list byte) :
  0 <= le_decode bs < 256 ^ Z.of_nat (length bs).
Proof.
  induction bs as [|b r IH].
  - simpl. lia.
  - cbn [le_decode length]. rewrite Nat2Z.inj_succ, Z.pow_succ_r by lia.
    pose proof (byte_to_Z_range b). lia.
Qed.

Lemma le_encode_decode (bs : list byte) :
  le_encode (length bs) (le_decode bs) = bs.
Proof.
  induction bs as [|b r IH]; [reflexivity|].
  pose proof (byte_to_Z_range b) as Hb.
  cbn [le_decode length le_encode]. f_equal.
  - rewrite <- byte_of_Z_mod.
    replace ((byte_to_Z b + 256 * le_decode r) mod 256) with (byte_to_Z b).
    + apply byte_of_to_Z.
    + rewrite (Z.mul_comm 256), Z.mod_add by lia.
      symmetry. apply Z.mod_small. lia.
  - replace ((byte_to_Z b + 256 * le_decode r) / 256) with (le_decode r); [exact IH|].
    rewrite (Z.mul_comm 256), Z.div_add by lia.
    rewrite (Z.div_small (byte_to_Z b)) by lia. lia.
Qed.

Lemma le_decode_encode (n : nat) (z : Z) :
  le_decode (le_encode n z) = z mod 256 ^ Z.of_nat n.
Proof.
  revert z. induction n as [|n IH]; intros z.
  - simpl. rewrite Z.mod_1_r. reflexivity.
  - cbn [le_encode le_decode]. rewrite IH, byte_to_of_Z.
    rewrite Nat2Z.inj_succ, Z.pow_succ_r by lia.
    rewrite (Z.rem_mul_r z 256 (256 ^ Z.of_nat n)) by lia.
    reflexivity.
Qed.

(** ** The EEPROM library *)

Lemma get_bytes_run (n : nat) (adr : Z) (w : World) :
  EEPROM.get_bytes adr n w = (peek (cells w) adr n, touch adr n w).
Proof.
  revert adr w. induction n as [|n IH]; intros adr w.
  - destruct w; reflexivity.
  - cbn [EEPROM.get_bytes]. unfold bind at 1. cbn [EEPROM.read_byte].
    unfold bind at 1. rewrite IH. unfold ret, touch. cbn.
    rewrite <- app_assoc. reflexivity.
Qed.

Lemma put_bytes_run (bs : list byte) (adr : Z) (w : World) :
  EEPROM.put_bytes adr bs w = (tt, store adr bs w).
Proof.
  revert adr w. induction bs as [|b r IH]; intros adr w.
  - destruct w; reflexivity.
  - cbn [EEPROM.put_bytes]. unfold bind at 1. cbn [EEPROM.update_byte].
    rewrite IH. unfold store. cbn. rewrite <- app_assoc. reflexivity.
Qed.

Lemma peek_length (c : Z -> byte) (adr : Z) (n : nat) : length (peek c adr n) = n.
Proof. revert adr. induction n as [|n IH]; intros adr; simpl; [|rewrite IH]; reflexivity. Qed.

Lemma peek_lookup (c : Z -> byte) (n k : nat) (adr : Z) :
  (k < n)%nat -> peek c adr n !! k = Some (c (adr + Z.of_nat k)).
Proof.
  revert k adr. induction n as [|n IH]; intros k adr Hk; [lia|].
  destruct k as [|k]; cbn [peek].
  - simpl. f_equal. f_equal. lia.
  - rewrite lookup_cons. rewrite IH by lia. f_equal. f_equal. lia.
Qed.

Lemma peek_ext (c c' : Z -> byte) (n : nat) (adr : Z) :
  (forall a, adr <= a < adr + Z.of_nat n -> c a = c' a) ->
  peek c adr n = peek c' adr n.
Proof.
  revert adr. induction n as [|n IH]; intros adr H; [reflexivity|].
  cbn [peek]. f_equal.
  - apply H. lia.
  - apply IH. intros a Ha. apply H. lia.
Qed.

Lemma poke_outside (bs : list byte) (c : Z -> byte) (adr a : Z) :
  a < adr \/ adr + Z.of_nat (length bs) <= a -> poke c adr bs a = c a.
Proof.
  revert c adr. induction bs as [|b r IH]; intros c adr H; [reflexivity|].
  cbn [poke]. cbn [length] in H. rewrite IH by lia.
  apply fn_lookup_insert_ne. lia.
Qed.

Lemma poke_inside (bs : list byte) (c : Z -> byte) (adr : Z) (k : nat) (b : byte) :
  bs !! k = Some b -> poke c adr bs (adr + Z.of_nat k) = b.
Proof.
  revert c adr k. induction bs as [|x r IH]; intros c adr k H; [discriminate|].
  cbn [poke]. destruct k as [|k].
  - simpl in H. injection H as ->. rewrite poke_outside by lia.
    rewrite Z.add_0_r. apply fn_lookup_insert.
  - rewrite lookup_cons in H.
    replace (adr + Z.of_nat (S k)) with (adr + 1 + Z.of_nat k) by lia.
    apply IH. exact H.
Qed.

(** Storing at [dst] what lies at [src]. *)
Lemma poke_peek (c : Z -> byte) (src dst : Z) (n : nat) (a : Z) :
  poke c dst (peek c src n) a =
  if (dst <=? a) && (a <? dst + Z.of_nat n) then c (src + (a - dst)) else c a.
Proof.
  destruct ((dst <=? a) && (a <? dst + Z.of_nat n)) eqn:E.
  - apply andb_true_iff in E as [H1 H2].
    apply Z.leb_le in H1. apply Z.ltb_lt in H2.
    replace a with (dst + Z.of_nat (Z.to_nat (a - dst))) at 1 by lia.
    apply poke_inside. rewrite peek_lookup by lia. f_equal. f_equal. lia.
  - apply poke_outside. rewrite peek_length.
    apply andb_false_iff in E as [H|H];
      [apply Z.leb_gt in H | apply Z.ltb_ge in H]; lia.
Qed.

Lemma peek_poke (bs : list byte) (c : Z -> byte) (adr : Z) :
  peek (poke c adr bs) adr (length bs) = bs.
Proof.
  apply list_eq. intros k.
  destruct (bs !! k) as [b|] eqn:E.
  - rewrite peek_lookup by (apply lookup_lt_Some in E; exact E).
    f_equal. apply poke_inside. exact E.
  - apply lookup_ge_None in E. apply lookup_ge_None. rewrite peek_length. exact E.
Qed.

(** ** The event record *)

Lemma copy_chars_lookup (src : list byte) (m k : nat) (d : list byte) (i : nat) :
  length d = length src -> (k + m <= length src)%nat ->
  foldl (fun d i => <[i := src !!! i]> d) d (seq k m) !! i =
  if decide (k <= i < k + m)%nat then src !! i else d !! i.
Proof.
  revert k d. induction m as [|m IH]; intros k d Hd Hk.
  - simpl. case_decide; [lia|reflexivity].
  - cbn [seq foldl]. rewrite IH by (rewrite ?length_insert; lia).
    destruct (decide (i = k)) as [->|Hne].
    + rewrite decide_False by lia. rewrite decide_True by lia.
      rewrite list_lookup_insert_eq by lia.
      symmetry. apply list_lookup_lookup_total_lt. lia.
    + rewrite list_lookup_insert_ne by congruence.
      repeat case_decide; try reflexivity; lia.
Qed.

Lemma copy_chars_all (n : nat) (src dst : list byte) :
  length src = n -> length dst = n -> copy_chars n src dst = src.
Proof.
  intros Hs Hd. apply list_eq. intros i. unfold copy_chars.
  rewrite copy_chars_lookup by lia.
  case_decide as H; [reflexivity|].
  rewrite !(proj2 (lookup_ge_None _ _)) by lia. reflexivity.
Qed.

Lemma setup_version_length (src : list byte) (i : nat) (v : list byte) :
  length (setup_version src i v) = length v.
Proof.
  revert i v. induction src as [|c rest IH]; intros i v; [reflexivity|].
  cbn [setup_version]. destruct (Byte.eqb c x00).
  - apply length_insert.
  - rewrite IH. apply length_insert.
Qed.

Lemma nwEvent_new_run (w : World) :
  nwEvent_new w =
  (mknwEvent (setup_version nwVersionString 0 (replicate (Z.to_nat nwVersionSize) x00))
             (clock w) NW_REASON_DEFAULT false, w).
Proof. reflexivity. Qed.

Lemma nwEvent_new_wf_version (w : World) :
  length (_version (eval nwEvent_new w)) = Z.to_nat nwVersionSize.
Proof. reflexivity. Qed.

Lemma record_bytes_length (w : World) (adr : Z) :
  length (record_bytes w adr) = 37%nat.
Proof. unfold record_bytes. apply peek_length. Qed.

Lemma readFromEEPROM_run (this : nwEvent) (adr : Z) (w : World) :
  length (_version this) = Z.to_nat nwVersionSize ->
  readFromEEPROM this adr w =
  (nwEvent_of_Str (nwEventStr_of_bytes (record_bytes w adr)),
   touch adr (Z.to_nat nwEventStrSize) w).
Proof.
  intros Hlen. unfold readFromEEPROM, EEPROM_get_nwEventStr, record_bytes.
  unfold bind. rewrite get_bytes_run. unfold ret, nwEvent_of_Str.
  f_equal. f_equal. apply copy_chars_all; [|exact Hlen].
  cbn [version nwEventStr_of_bytes]. rewrite length_take, peek_length.
  reflexivity.
Qed.

Lemma nwEvent_to_Str_length (ev : nwEvent) :
  length (nwEventStr_bytes (nwEvent_to_Str ev)) = 37%nat.
Proof.
  unfold nwEventStr_bytes, nwEvent_to_Str. cbn [version time ack_reason].
  rewrite !length_app, le_encode_length.
  assert (forall n src dst, length (copy_chars n src dst) = length dst) as Hc.
  { intros n src. unfold copy_chars. generalize (seq 0 n) as l.
    induction l as [|i l IH]; intros dst; [reflexivity|].
    cbn [foldl]. rewrite IH. apply length_insert. }
  rewrite Hc, length_replicate. reflexivity.
Qed.

Lemma writeToEEPROM_run (this : nwEvent) (adr : Z) (w : World) :
  writeToEEPROM this adr w =
  (tt, store adr (nwEventStr_bytes (nwEvent_to_Str this)) w).
Proof. unfold writeToEEPROM, EEPROM_put_nwEventStr. apply put_bytes_run. Qed.

(** The packed byte, bit by bit. *)
Lemma ack_reason_repack (b : byte) :
  byte_of_Z (Z.lor (byte_to_Z (byte_of_Z (Z.land (byte_to_Z b) 127)))
                   (if negb (Z.shiftr (byte_to_Z b) 7 =? 0) then 128 else 0)) = b.
Proof. destruct b; vm_compute; reflexivity. Qed.

Lemma packed_byte_value (r : Z) (a : bool) :
  byte_to_Z (byte_of_Z (Z.lor (byte_to_Z (byte_of_Z r)) (if a then 128 else 0))) =
  Z.lor (Z.land r 255) (if a then 128 else 0).
Proof.
  rewrite !byte_to_of_Z.
  change 256 with (2 ^ 8). rewrite <- !Z.land_ones by lia.
  change (Z.ones 8) with 255.
  rewrite Z.land_lor_distr_l, <- Z.land_assoc. change (Z.land 255 255) with 255.
  destruct a; reflexivity.
Qed.

Lemma testbit_255 (n : Z) : 0 <= n -> Z.testbit 255 n = (n <? 8).
Proof.
  intros Hn. change 255 with (Z.ones 8).
  destruct (n <? 8) eqn:E.
  - apply Z.ltb_lt in E. apply Z.ones_spec_low. lia.
  - apply Z.ltb_ge in E. apply Z.ones_spec_high. lia.
Qed.

Lemma testbit_127 (n : Z) : 0 <= n -> Z.testbit 127 n = (n <? 7).
Proof.
  intros Hn. change 127 with (Z.ones 7).
  destruct (n <? 7) eqn:E.
  - apply Z.ltb_lt in E. apply Z.ones_spec_low. lia.
  - apply Z.ltb_ge in E. apply Z.ones_spec_high. lia.
Qed.

Lemma testbit_128 (n : Z) : 0 <= n -> Z.testbit 128 n = (n =? 7).
Proof.
  intros Hn. change 128 with (2 ^ 7). rewrite Z.pow2_bits_eqb by lia.
  apply Z.eqb_sym.
Qed.

(** Reading the packed byte back: the low seven bits of the reason, and
    bit 7 of the reason or the acknowledgement. *)
Lemma packed_reason (r : Z) (a : bool) :
  Z.land (Z.lor (Z.land r 255) (if a then 128 else 0)) 127 = Z.land r 127.
Proof.
  apply Z.bits_inj'. intros n Hn.
  rewrite !Z.land_spec, Z.lor_spec, Z.land_spec, testbit_255, testbit_127 by lia.
  destruct (n <? 7) eqn:E7; [|rewrite !andb_false_r; reflexivity].
  apply Z.ltb_lt in E7.
  replace (n <? 8) with true by (symmetry; apply Z.ltb_lt; lia).
  replace (Z.testbit (if a then 128 else 0) n) with false.
  - rewrite andb_true_r, orb_false_r. reflexivity.
  - destruct a; [|rewrite Z.bits_0; reflexivity].
    rewrite testbit_128 by lia. symmetry. apply Z.eqb_neq. lia.
Qed.

Lemma packed_ack (r : Z) (a : bool) :
  negb (Z.shiftr (Z.lor (Z.land r 255) (if a then 128 else 0)) 7 =? 0) =
  a || Z.testbit r 7.
Proof.
  assert (Z.shiftr (Z.lor (Z.land r 255) (if a then 128 else 0)) 7 =
          Z.b2z (a || Z.testbit r 7)) as ->.
  { apply Z.bits_inj'. intros n Hn.
    rewrite Z.shiftr_spec, Z.lor_spec, Z.land_spec, testbit_255 by lia.
    destruct (decide (n = 0)) as [->|Hne].
    - rewrite Z.b2z_bit0. cbn [Z.add]. change (7 <? 8) with true.
      rewrite andb_true_r, orb_comm. f_equal.
      destruct a; reflexivity.
    - replace (n + 7 <? 8) with false by (symmetry; apply Z.ltb_ge; lia).
      rewrite andb_false_r. cbn [orb].
      replace (Z.testbit (if a then 128 else 0) (n + 7)) with false.
      + destruct (a || Z.testbit r 7); cbn [Z.b2z].
        * symmetry. change 1 with (2 ^ 0). rewrite Z.pow2_bits_eqb by lia.
          apply Z.eqb_neq. lia.
        * symmetry. apply Z.bits_0.
      + destruct a; [|rewrite Z.bits_0; reflexivity].
        rewrite testbit_128 by lia. symmetry. apply Z.eqb_neq. lia. }
  destruct (a || Z.testbit r 7); reflexivity.
Qed.

Lemma split_record (bs : list byte) :
  length bs = 37%nat ->
  take 32 bs ++ take 4 (drop 32 bs) ++ [drop 36 bs !!! 0%nat] = bs.
Proof.
  intros Hlen.
  rewrite <- (take_drop 32 bs) at 4. f_equal.
  rewrite <- (take_drop 4 (drop 32 bs)) at 2. f_equal.
  rewrite drop_drop. change (32 + 4)%nat with 36%nat.
  assert (length (drop 36 bs) = 1%nat) as H1 by (rewrite length_drop; lia).
  destruct (drop 36 bs) as [|x [|y r]]; try discriminate. reflexivity.
Qed.

(** Deserialising and serialising again gives the bytes back. *)
Lemma bytes_of_bytes (bs : list byte) :
  length bs = 37%nat ->
  nwEventStr_bytes (nwEvent_to_Str (nwEvent_of_Str (nwEventStr_of_bytes bs))) = bs.
Proof.
  intros Hlen.
  unfold nwEventStr_bytes, nwEvent_to_Str, nwEvent_of_Str, nwEventStr_of_bytes.
  cbn [version time ack_reason _version _time _reason _ack].
  change (Z.to_nat nwVersionSize) with 32%nat.
  change (Z.to_nat sizeof_time_t) with 4%nat.
  change (32 + 4)%nat with 36%nat.
  rewrite copy_chars_all;
    [| rewrite length_take; lia | apply length_replicate ].
  rewrite ack_reason_repack.
  assert (le_encode 4 (le_decode (take 4 (drop 32 bs))) = take 4 (drop 32 bs)) as ->.
  { pose proof (le_encode_decode (take 4 (drop 32 bs))) as H.
    rewrite length_take, length_drop in H.
    replace (4 `min` (length bs - 32))%nat with 4%nat in H by lia. exact H. }
  apply split_record. exact Hlen.
Qed.

(** Serialising and deserialising again: the packed byte decides what
    comes back as reason and acknowledgement. *)
Lemma event_of_written (ev : nwEvent) :
  nwEvent_wf ev ->
  nwEvent_of_Str (nwEventStr_of_bytes (nwEventStr_bytes (nwEvent_to_Str ev))) =
  mknwEvent (_version ev) (_time ev)
            (Z.land (_reason ev) 127) (_ack ev || Z.testbit (_reason ev) 7).
Proof.
  intros [Hv Ht]. change (Z.to_nat nwVersionSize) with 32%nat in Hv.
  unfold nwEventStr_bytes, nwEvent_to_Str, nwEvent_of_Str, nwEventStr_of_bytes.
  cbn [version time ack_reason].
  change (Z.to_nat nwVersionSize) with 32%nat.
  change (Z.to_nat sizeof_time_t) with 4%nat.
  rewrite copy_chars_all by (rewrite ?length_replicate; lia).
  rewrite take_app_length' by (symmetry; exact Hv).
  rewrite drop_app_length' by (symmetry; exact Hv).
  rewrite take_app_length' by (symmetry; apply le_encode_length).
  rewrite <- drop_drop.
  rewrite drop_app_length' by (symmetry; exact Hv).
  rewrite drop_app_length' by (symmetry; apply le_encode_length).
  cbn [lookup_total list_lookup_total].
  rewrite le_decode_encode, packed_byte_value, packed_reason, packed_ack.
  f_equal. change (256 ^ Z.of_nat 4) with (2 ^ 32). apply Z.mod_small. exact Ht.
Qed.

Lemma written_last_byte (ev : nwEvent) (adr : Z) (w : World) :
  cells (exec (writeToEEPROM ev adr) w) (adr + 36) = ack_reason (nwEvent_to_Str ev).
Proof.
  unfold exec. rewrite writeToEEPROM_run. cbn [snd store cells].
  change 36 with (Z.of_nat 36). apply poke_inside.
  pose proof (nwEvent_to_Str_length ev) as Hlen.
  unfold nwEventStr_bytes in *. rewrite !length_app, le_encode_length in Hlen.
  cbn [length] in Hlen.
  rewrite lookup_app_r by lia. rewrite lookup_app_r by (rewrite le_encode_length; lia).
  rewrite le_encode_length.
  replace (36 - length (version (nwEvent_to_Str ev)) - Z.to_nat sizeof_time_t)%nat
    with 0%nat by (change (Z.to_nat sizeof_time_t) with 4%nat in *; lia).
  reflexivity.
Qed.

Lemma written_last_byte_value (ev : nwEvent) (adr : Z) (w : World) :
  byte_to_Z (cells (exec (writeToEEPROM ev adr) w) (adr + 36)) =
  Z.lor (Z.land (_reason ev) 255) (if _ack ev then 128 else 0).
Proof. rewrite written_last_byte. apply packed_byte_value. Qed.

Lemma read_after_write (ev this : nwEvent) (adr : Z) (w : World) :
  nwEvent_wf ev -> length (_version this) = Z.to_nat nwVersionSize ->
  eval (readFromEEPROM this adr) (exec (writeToEEPROM ev adr) w) =
  mknwEvent (_version ev) (_time ev)
            (Z.land (_reason ev) 127) (_ack ev || Z.testbit (_reason ev) 7).
Proof.
  intros Hwf Hthis. unfold eval, exec.
  rewrite writeToEEPROM_run, readFromEEPROM_run by exact Hthis.
  cbn [fst snd]. unfold record_bytes, store. cbn [cells].
  change (Z.to_nat nwEventStrSize) with 37%nat.
  pose proof (peek_poke (nwEventStr_bytes (nwEvent_to_Str ev)) (cells w) adr) as H.
  rewrite nwEvent_to_Str_length in H. rewrite H.
  apply event_of_written. exact Hwf.
Qed.

(** ** The event log *)

Lemma slot_adr_small (i : Z) :
  -800 <= i <= 800 -> nwResetEventSlotAdr i = 39 + 37 * i.
Proof.
  intros Hi. unfold nwResetEventSlotAdr.
  change nwEventStrSize with 37. change nwResetEventAdr with 39.
  rewrite !int_wrap_small; rewrite ?int_wrap_small; lia.
Qed.

Lemma CountGet_run (w : World) :
  nwEEPROMResetEventCountGet w =
  (int_of_bytes (peek (cells w) nwResetCountAdr 2), touch nwResetCountAdr 2 w).
Proof.
  unfold nwEEPROMResetEventCountGet, EEPROM.get_int, bind.
  rewrite get_bytes_run. reflexivity.
Qed.

Lemma ResetEventGet_run (i : Z) (w : World) :
  nwEEPROMResetEventGet i w =
  (nwEvent_of_Str (nwEventStr_of_bytes (record_bytes w (nwResetEventSlotAdr i))),
   touch (nwResetEventSlotAdr i) (Z.to_nat nwEventStrSize) w).
Proof.
  unfold nwEEPROMResetEventGet, bind. rewrite nwEvent_new_run.
  apply readFromEEPROM_run. reflexivity.
Qed.

Lemma InitEventGet_run (w : World) :
  nwEEPROMInitEventGet w =
  (nwEvent_of_Str (nwEventStr_of_bytes (record_bytes w nwInitEventAdr)),
   touch nwInitEventAdr (Z.to_nat nwEventStrSize) w).
Proof.
  unfold nwEEPROMInitEventGet, bind. rewrite nwEvent_new_run.
  apply readFromEEPROM_run. reflexivity.
Qed.

Lemma ResetEventSet_run (ev : nwEvent) (i : Z) (w : World) :
  nwEEPROMResetEventSet ev i w =
  (tt, store (nwResetEventSlotAdr i) (nwEventStr_bytes (nwEvent_to_Str ev)) w).
Proof. apply writeToEEPROM_run. Qed.

(** One turn of the loop copies the bytes of slot [i-1] to slot [i]. *)
Lemma shift_loop_step (k : nat) (w : World) :
  shift_loop (S k) w =
  shift_loop k
    (store (nwResetEventSlotAdr (Z.of_nat (S k)))
           (record_bytes w (nwResetEventSlotAdr (Z.of_nat (S k) - 1)))
           (touch (nwResetEventSlotAdr (Z.of_nat (S k) - 1))
                  (Z.to_nat nwEventStrSize) w)).
Proof.
  cbn [shift_loop]. unfold bind at 1. rewrite ResetEventGet_run.
  unfold bind at 1. rewrite ResetEventSet_run.
  rewrite bytes_of_bytes by apply record_bytes_length. reflexivity.
Qed.

Lemma shift_loop_cells (n : nat) (w : World) (a : Z) :
  (n <= 800)%nat ->
  cells (exec (shift_loop n) w) a =
  if (76 <=? a) && (a <? 76 + 37 * Z.of_nat n) then cells w (a - 37) else cells w a.
Proof.
  revert w a. induction n as [|n IH]; intros w a Hn.
  - cbn [shift_loop exec ret snd]. change (Z.of_nat 0) with 0.
    destruct (Z.leb_spec 76 a), (Z.ltb_spec a (76 + 37 * 0)); cbn [andb];
      try reflexivity; lia.
  - unfold exec in *. rewrite shift_loop_step. rewrite IH by lia.
    cbn [store touch cells]. unfold record_bytes.
    rewrite !poke_peek. rewrite !slot_adr_small by lia.
    change (Z.of_nat (Z.to_nat nwEventStrSize)) with 37.
    repeat match goal with
    | |- context [ ?x <=? ?y ] => destruct (Z.leb_spec x y)
    | |- context [ ?x <? ?y ] => destruct (Z.ltb_spec x y)
    end; cbn [andb]; try lia; f_equal; lia.
Qed.

(** *** Accessed addresses *)

Lemma accesses_within_refl (lo hi : Z) (w : World) : accesses_within lo hi w w.
Proof. exists []. split; [reflexivity | constructor]. Qed.

Lemma accesses_within_trans (lo hi : Z) (w1 w2 w3 : World) :
  accesses_within lo hi w1 w2 -> accesses_within lo hi w2 w3 ->
  accesses_within lo hi w1 w3.
Proof.
  intros (n1 & E1 & F1) (n2 & E2 & F2). exists (n2 ++ n1). split.
  - rewrite E2, E1. apply app_assoc.
  - apply Forall_app. split; assumption.
Qed.

Lemma accesses_within_mono (lo hi lo' hi' : Z) (w w' : World) :
  lo' <= lo -> hi <= hi' ->
  accesses_within lo hi w w' -> accesses_within lo' hi' w w'.
Proof.
  intros Hlo Hhi (new & E & F). exists new. split; [exact E|].
  eapply List.Forall_impl; [|exact F]. cbn. intros x Hx. lia.
Qed.

Lemma addrs_range (n : nat) (adr : Z) :
  Forall (fun a => adr <= a < adr + Z.of_nat n) (addrs adr n).
Proof.
  revert adr. induction n as [|n IH]; intros adr; cbn [addrs]; constructor.
  - lia.
  - eapply List.Forall_impl; [|apply IH]. cbn. intros x Hx. lia.
Qed.

Lemma accesses_within_touch (adr : Z) (n : nat) (w : World) :
  accesses_within adr (adr + Z.of_nat n) w (touch adr n w).
Proof.
  exists (rev (addrs adr n)). split; [reflexivity|].
  apply Forall_rev, addrs_range.
Qed.

Lemma accesses_within_store (adr : Z) (bs : list byte) (w : World) :
  accesses_within adr (adr + Z.of_nat (length bs)) w (store adr bs w).
Proof.
  exists (rev (addrs adr (length bs))). split; [reflexivity|].
  apply Forall_rev, addrs_range.
Qed.

Lemma shift_loop_accessed (n : nat) (w : World) :
  (n <= 800)%nat ->
  accesses_within 39 (76 + 37 * Z.of_nat n) w (exec (shift_loop n) w).
Proof.
  revert w. induction n as [|n IH]; intros w Hn.
  - apply accesses_within_refl.
  - unfold exec in *. rewrite shift_loop_step.
    set (src := nwResetEventSlotAdr (Z.of_nat (S n) - 1)).
    set (dst := nwResetEventSlotAdr (Z.of_nat (S n))).
    assert (src = 39 + 37 * (Z.of_nat (S n) - 1)) as Hsrc
      by (apply slot_adr_small; lia).
    assert (dst = 39 + 37 * Z.of_nat (S n)) as Hdst
      by (apply slot_adr_small; lia).
    set (hi := 76 + 37 * Z.of_nat (S n)).
    pose proof (accesses_within_touch src (Z.to_nat nwEventStrSize) w) as H1.
    apply (accesses_within_mono _ _ 39 hi) in H1;
      [| lia | change (Z.of_nat (Z.to_nat nwEventStrSize)) with 37; lia].
    pose proof (accesses_within_store dst (record_bytes w src)
                  (touch src (Z.to_nat nwEventStrSize) w)) as H2.
    apply (accesses_within_mono _ _ 39 hi) in H2;
      [| lia | rewrite record_bytes_length; lia].
    pose proof (IH (store dst (record_bytes w src)
                      (touch src (Z.to_nat nwEventStrSize) w)) ltac:(lia)) as H3.
    apply (accesses_within_mono _ _ 39 hi) in H3; [| lia | lia].
    exact (accesses_within_trans _ _ _ _ _
             (accesses_within_trans _ _ _ _ _ H1 H2) H3).
Qed.

Lemma shift_loop_unit (n : nat) (w : World) :
  shift_loop n w = (tt, exec (shift_loop n) w).
Proof. unfold exec. destruct (shift_loop n w) as [[] w']. reflexivity. Qed.

Lemma ResetEventSetNew_run (ev : nwEvent) (index : Z) (w : World) :
  exec (nwEEPROMResetEventSetNew ev index) w =
  store nwResetCountAdr (int_bytes (int_wrap (shift_count w + 1)))
    (store (nwResetEventSlotAdr 0) (nwEventStr_bytes (nwEvent_to_Str ev))
       (exec (shift_loop (Z.to_nat (shift_count w)))
             (touch nwResetCountAdr 2 w))).
Proof.
  unfold exec at 1, nwEEPROMResetEventSetNew.
  unfold bind at 1. rewrite nwEvent_new_run.
  unfold bind at 1. unfold shift_count, eval. rewrite CountGet_run. cbn [fst].
  unfold bind at 1. rewrite shift_loop_unit.
  unfold bind at 1. rewrite ResetEventSet_run.
  unfold EEPROM.put_int. rewrite put_bytes_run. reflexivity.
Qed.

(** * The claims *)

(** C7. For every integer code, [nwReasonString] returns "initialization"
    exactly when the code is 0, "no ping" exactly when it is 1, "external
    command" exactly when it is at least 16, and "unknown reason code" in
    all other cases, the codes 2..15 and the negative ones. *)
Theorem nwReasonString_cases (code : Z) :
  (nwReasonString code = "initialization"%string <-> code = 0) /\
  (nwReasonString code = "no ping"%string <-> code = 1) /\
  (nwReasonString code = "external command"%string <-> 16 <= code) /\
  (nwReasonString code = "unknown reason code"%string <->
     code <> 0 /\ code <> 1 /\ code < 16).
Proof.
  unfold nwReasonString, NW_REASON_INIT, NW_REASON_NOPING, NW_REASON_COMMAND_START.
  destruct (Z.eqb_spec code 0) as [->|H0].
  { repeat split; intros; try discriminate; try lia. }
  destruct (Z.eqb_spec code 1) as [->|H1].
  { repeat split; intros; try discriminate; try lia. }
  rewrite Z.geb_leb. destruct (Z.leb_spec 16 code) as [H16|H16].
  - repeat split; intros; try discriminate; try lia.
  - repeat split; intros; try discriminate; try lia.
Qed.

(** C8. The serialised structure takes 37 bytes, the count lies at
    address 37 and takes 2 bytes, ring slot [i], for [i] in [0, 10),
    starts at [39 + 37 * i], which is where [nwEEPROMResetEventGet]
    reads its 37 bytes, and the log ends at address 409. *)
Theorem log_layout (i : Z) :
  0 <= i < NW_MAX_RESET_EVENT ->
  nwEventStrSize = 37 /\
  (forall ev, Z.of_nat (length (nwEventStr_bytes (nwEvent_to_Str ev))) = nwEventStrSize) /\
  nwInitEventAdr = 0 /\
  nwResetCountAdr = 37 /\ sizeof_int = 2 /\
  nwResetEventSlotAdr i = 39 + 37 * i /\
  (forall w, accessed (exec (nwEEPROMResetEventGet i) w) =
             rev (addrs (39 + 37 * i) 37) ++ accessed w) /\
  nwResetEventSlotAdr i + nwEventStrSize <= 409 /\
  nwResetEventSlotAdr (NW_MAX_RESET_EVENT - 1) + nwEventStrSize = 409.
Proof.
  unfold NW_MAX_RESET_EVENT. intros Hi.
  assert (nwResetEventSlotAdr i = 39 + 37 * i) as Hs by (apply slot_adr_small; lia).
  split; [reflexivity|].
  split; [intros ev; rewrite nwEvent_to_Str_length; reflexivity|].
  split; [reflexivity|]. split; [reflexivity|]. split; [reflexivity|].
  split; [exact Hs|].
  split; [intros w; unfold exec; rewrite ResetEventGet_run, Hs; reflexivity|].
  split; [rewrite Hs; change nwEventStrSize with 37; lia | reflexivity].
Qed.

Lemma log_layout_witness :
  0 <= 3 < NW_MAX_RESET_EVENT /\ nwResetEventSlotAdr 3 = 39 + 37 * 3.
Proof.
  assert (0 <= 3 < NW_MAX_RESET_EVENT) as H by (unfold NW_MAX_RESET_EVENT; lia).
  split; [exact H|]. apply (log_layout 3 H).
Defined.

(** C2, as the code has it. Writing an event and reading the same address
    back gives the version, the time, the reason masked with 0x7F and the
    acknowledgement, provided that the event is acknowledged or that bit 7
    of its reason is clear, which is the case of all the reason codes
    0..127. *)
Theorem write_then_read (ev this : nwEvent) (adr : Z) (w : World) :
  nwEvent_wf ev -> length (_version this) = Z.to_nat nwVersionSize ->
  _ack ev = true \/ Z.testbit (_reason ev) 7 = false ->
  all_fields (eval (readFromEEPROM this adr) (exec (writeToEEPROM ev adr) w)) =
  stored_fields ev.
Proof.
  intros Hwf Hthis Hbit. rewrite read_after_write by assumption.
  unfold all_fields, stored_fields. cbn [_version _time _reason _ack].
  f_equal. destruct Hbit as [-> | ->]; [reflexivity | apply orb_false_r].
Qed.

Lemma write_then_read_witness :
  nwEvent_wf sample_event /\
  length (_version sample_event) = Z.to_nat nwVersionSize /\
  (_ack sample_event = true \/ Z.testbit (_reason sample_event) 7 = false) /\
  all_fields (eval (readFromEEPROM sample_event 39)
                   (exec (writeToEEPROM sample_event 39) erased)) =
  stored_fields sample_event.
Proof.
  assert (nwEvent_wf sample_event) as H1 by (split; [reflexivity | vm_compute; split; [discriminate | reflexivity]]).
  assert (length (_version sample_event) = Z.to_nat nwVersionSize) as H2 by reflexivity.
  assert (_ack sample_event = true \/ Z.testbit (_reason sample_event) 7 = false) as H3
    by (right; reflexivity).
  split; [exact H1|]. split; [exact H2|]. split; [exact H3|].
  apply (write_then_read sample_event sample_event 39 erased H1 H2 H3).
Defined.

(** C2 fails for a reason code with bit 7 set: an event with reason 128
    that is not acknowledged is read back acknowledged. *)
Lemma write_then_read_reason_128 :
  all_fields (eval (readFromEEPROM reason_128_event 39)
                   (exec (writeToEEPROM reason_128_event 39) erased)) <>
  stored_fields reason_128_event.
Proof.
  intros H. apply (f_equal snd) in H. vm_compute in H. discriminate H.
Qed.

(** C4, as the code has it. The last byte that [writeToEEPROM] stores is
    [(acked << 7) | (reason & 0x7F)] provided that the event is
    acknowledged or that bit 7 of its reason is clear, which is the case
    of all the reason codes 0..127. *)
Theorem written_packed_byte (ev : nwEvent) (adr : Z) (w : World) :
  _ack ev = true \/ Z.testbit (_reason ev) 7 = false ->
  byte_to_Z (cells (exec (writeToEEPROM ev adr) w) (adr + nwEventStrSize - 1)) =
  Z.lor (Z.shiftl (Z.b2z (_ack ev)) 7) (Z.land (_reason ev) 127).
Proof.
  intros Hbit. change (adr + nwEventStrSize - 1) with (adr + 37 - 1).
  replace (adr + 37 - 1) with (adr + 36) by lia.
  rewrite written_last_byte_value.
  apply Z.bits_inj'. intros n Hn.
  rewrite !Z.lor_spec, !Z.land_spec, testbit_255, testbit_127 by lia.
  destruct (Z.ltb_spec n 7) as [H7|H7].
  - replace (n <? 8) with true by (symmetry; apply Z.ltb_lt; lia).
    rewrite Z.shiftl_spec_low by lia. rewrite !andb_true_r.
    replace (Z.testbit (if _ack ev then 128 else 0) n) with false.
    + rewrite orb_false_r. reflexivity.
    + destruct (_ack ev); [|rewrite Z.bits_0; reflexivity].
      rewrite testbit_128 by lia. symmetry. apply Z.eqb_neq. lia.
  - rewrite andb_false_r, orb_false_r. rewrite Z.shiftl_spec by lia.
    destruct (decide (n = 7)) as [->|Hne].
    + change (7 <? 8) with true. rewrite andb_true_r. change (7 - 7) with 0.
      rewrite Z.b2z_bit0.
      destruct Hbit as [-> | ->]; [apply orb_true_r|].
      destruct (_ack ev); reflexivity.
    + replace (n <? 8) with false by (symmetry; apply Z.ltb_ge; lia).
      rewrite andb_false_r. cbn [orb].
      replace (Z.testbit (Z.b2z (_ack ev)) (n - 7)) with false.
      * destruct (_ack ev); [|apply Z.bits_0].
        rewrite testbit_128 by lia. apply Z.eqb_neq. lia.
      * symmetry. destruct (_ack ev); cbn [Z.b2z]; [|apply Z.bits_0].
        change 1 with (2 ^ 0). rewrite Z.pow2_bits_eqb by lia.
        apply Z.eqb_neq. lia.
Qed.

Lemma written_packed_byte_witness :
  (_ack sample_event = true \/ Z.testbit (_reason sample_event) 7 = false) /\
  byte_to_Z (cells (exec (writeToEEPROM sample_event 39) erased) (39 + nwEventStrSize - 1)) =
  Z.lor (Z.shiftl (Z.b2z (_ack sample_event)) 7) (Z.land (_reason sample_event) 127).
Proof.
  assert (_ack sample_event = true \/ Z.testbit (_reason sample_event) 7 = false) as H
    by (right; reflexivity).
  split; [exact H|]. apply (written_packed_byte sample_event 39 erased H).
Defined.

(** C4 fails for a reason code with bit 7 set: for reason 128 and no
    acknowledgement the byte stored is 0x80, and [(0 << 7) | (128 & 0x7F)]
    is 0. *)
Lemma written_packed_byte_reason_128 :
  byte_to_Z (cells (exec (writeToEEPROM reason_128_event 39) erased)
                   (39 + nwEventStrSize - 1)) = 128 /\
  Z.lor (Z.shiftl (Z.b2z (_ack reason_128_event)) 7)
        (Z.land (_reason reason_128_event) 127) = 0.
Proof. split; vm_compute; reflexivity. Qed.

(** C10. Reading the record at an address and writing the event that was
    read back to the same address leaves every cell of the EEPROM as it
    was, the 37 bytes of the record included, whatever they hold. *)
Theorem read_then_write_unchanged (this : nwEvent) (adr : Z) (w : World) :
  length (_version this) = Z.to_nat nwVersionSize ->
  record_bytes
    (exec (writeToEEPROM (eval (readFromEEPROM this adr) w) adr)
          (exec (readFromEEPROM this adr) w)) adr = record_bytes w adr /\
  forall a,
    cells (exec (writeToEEPROM (eval (readFromEEPROM this adr) w) adr)
                (exec (readFromEEPROM this adr) w)) a = cells w a.
Proof.
  intros Hthis.
  assert (forall a,
    cells (exec (writeToEEPROM (eval (readFromEEPROM this adr) w) adr)
                (exec (readFromEEPROM this adr) w)) a = cells w a) as Hc.
  { intros a. unfold eval, exec.
    rewrite writeToEEPROM_run, readFromEEPROM_run by exact Hthis.
    cbn [fst snd store touch cells].
    rewrite bytes_of_bytes by apply record_bytes_length.
    unfold record_bytes. rewrite poke_peek.
    destruct ((adr <=? a) && (a <? adr + Z.of_nat (Z.to_nat nwEventStrSize)));
      [f_equal; lia | reflexivity]. }
  split; [|exact Hc].
  unfold record_bytes. apply peek_ext. intros a _. apply Hc.
Qed.

Lemma read_then_write_unchanged_witness :
  length (_version sample_event) = Z.to_nat nwVersionSize /\
  record_bytes
    (exec (writeToEEPROM (eval (readFromEEPROM sample_event 39) erased) 39)
          (exec (readFromEEPROM sample_event 39) erased)) 39 = record_bytes erased 39.
Proof.
  assert (length (_version sample_event) = Z.to_nat nwVersionSize) as H by reflexivity.
  split; [exact H|]. apply (read_then_write_unchanged sample_event 39 erased H).
Defined.

(** ** Insertion: what holds from any state *)

Lemma int_wrap_range (z : Z) : -32768 <= int_wrap z < 32768.
Proof. unfold int_wrap. pose proof (Z.mod_pos_bound (z + 32768) 65536). lia. Qed.

Lemma int_of_int_bytes (z : Z) : int_of_bytes (int_bytes z) = int_wrap z.
Proof.
  unfold int_of_bytes, int_bytes. rewrite le_decode_encode.
  change (256 ^ Z.of_nat 2) with 65536. unfold int_wrap.
  rewrite Zplus_mod_idemp_l. reflexivity.
Qed.

Lemma int_wrap_idem (z : Z) : int_wrap (int_wrap z) = int_wrap z.
Proof. apply int_wrap_small, int_wrap_range. Qed.

Lemma slot_bytes_eq (w : World) (i : Z) :
  slot_bytes w i = peek (cells w) (39 + 37 * i) 37.
Proof.
  unfold slot_bytes, record_bytes. f_equal.
  change nwResetEventAdr with 39. change nwEventStrSize with 37. lia.
Qed.

Lemma ResetEventGet_eval (i : Z) (w : World) :
  -800 <= i <= 800 ->
  eval (nwEEPROMResetEventGet i) w =
  nwEvent_of_Str (nwEventStr_of_bytes (slot_bytes w i)).
Proof.
  intros Hi. unfold eval. rewrite ResetEventGet_run. cbn [fst].
  rewrite slot_adr_small by exact Hi. rewrite slot_bytes_eq. reflexivity.
Qed.

Lemma CountGet_eval (w : World) :
  eval nwEEPROMResetEventCountGet w = int_of_bytes (peek (cells w) 37 2).
Proof. unfold eval. rewrite CountGet_run. reflexivity. Qed.

Lemma count_range (w : World) :
  -32768 <= eval nwEEPROMResetEventCountGet w < 32768.
Proof. rewrite CountGet_eval. apply int_wrap_range. Qed.

(** The cells after an insertion, in terms of the cells the loop left. *)
Lemma SetNew_cells (ev : nwEvent) (index : Z) (w : World) (a : Z) :
  cells (exec (nwEEPROMResetEventSetNew ev index) w) a =
  poke (poke (cells (exec (shift_loop (Z.to_nat (shift_count w)))
                          (touch nwResetCountAdr 2 w)))
             39 (nwEventStr_bytes (nwEvent_to_Str ev)))
       37 (int_bytes (int_wrap (shift_count w + 1))) a.
Proof.
  rewrite ResetEventSetNew_run. cbn [store cells].
  rewrite (slot_adr_small 0) by lia. reflexivity.
Qed.

Lemma SetNew_count (ev : nwEvent) (index : Z) (w : World) :
  eval nwEEPROMResetEventCountGet (exec (nwEEPROMResetEventSetNew ev index) w) =
  int_wrap (shift_count w + 1).
Proof.
  rewrite CountGet_eval.
  rewrite (peek_ext _ (poke (cells w) 37 (int_bytes (int_wrap (shift_count w + 1)))) 2 37).
  - change 2%nat with (length (int_bytes (int_wrap (shift_count w + 1)))) at 1.
    rewrite peek_poke, int_of_int_bytes. apply int_wrap_idem.
  - intros a Ha. rewrite SetNew_cells.
    replace a with (37 + Z.of_nat (Z.to_nat (a - 37))) by lia.
    destruct (int_bytes (int_wrap (shift_count w + 1)) !! Z.to_nat (a - 37)) as [b|] eqn:E.
    + rewrite !(poke_inside _ _ _ _ b) by exact E. reflexivity.
    + apply lookup_ge_None in E. cbn in E. lia.
Qed.

Lemma SetNew_slot_0 (ev : nwEvent) (index : Z) (w : World) :
  slot_bytes (exec (nwEEPROMResetEventSetNew ev index) w) 0 =
  nwEventStr_bytes (nwEvent_to_Str ev).
Proof.
  rewrite slot_bytes_eq. change (39 + 37 * 0) with 39.
  set (bs := nwEventStr_bytes (nwEvent_to_Str ev)).
  rewrite (peek_ext _ (poke (cells w) 39 bs) 37 39).
  - rewrite <- (nwEvent_to_Str_length ev). apply peek_poke.
  - intros a Ha. rewrite SetNew_cells. fold bs.
    rewrite poke_outside by (cbn [length int_bytes le_encode]; lia).
    replace a with (39 + Z.of_nat (Z.to_nat (a - 39))) by lia.
    destruct (bs !! Z.to_nat (a - 39)) as [b|] eqn:E.
    + rewrite !(poke_inside _ _ _ _ b) by exact E. reflexivity.
    + apply lookup_ge_None in E. unfold bs in E.
      rewrite nwEvent_to_Str_length in E. lia.
Qed.

(** From slot 1 on the cells are those the loop left, and below the count
    nothing is written. *)
Lemma SetNew_cells_outside (ev : nwEvent) (index : Z) (w : World) (a : Z) :
  a < 37 \/ 76 <= a ->
  cells (exec (nwEEPROMResetEventSetNew ev index) w) a =
  cells (exec (shift_loop (Z.to_nat (shift_count w))) (touch nwResetCountAdr 2 w)) a.
Proof.
  intros Ha. rewrite SetNew_cells.
  rewrite poke_outside by (cbn [length int_bytes le_encode]; lia).
  apply poke_outside. rewrite nwEvent_to_Str_length. lia.
Qed.

Lemma SetNew_accessed (ev : nwEvent) (index : Z) (w : World) :
  shift_count w <= 9 ->
  accesses_within 0 409 w (exec (nwEEPROMResetEventSetNew ev index) w).
Proof.
  intros Hc. rewrite ResetEventSetNew_run.
  set (n := Z.to_nat (shift_count w)).
  set (w1 := touch nwResetCountAdr 2 w).
  set (w2 := exec (shift_loop n) w1).
  set (bs := nwEventStr_bytes (nwEvent_to_Str ev)).
  set (w3 := store (nwResetEventSlotAdr 0) bs w2).
  set (cnt := int_bytes (int_wrap (shift_count w + 1))).
  pose proof (accesses_within_touch nwResetCountAdr 2 w) as H1.
  apply (accesses_within_mono _ _ 0 409) in H1;
    [| change nwResetCountAdr with 37; lia | change nwResetCountAdr with 37; lia].
  assert (n <= 9)%nat as Hn by (unfold n; lia).
  pose proof (shift_loop_accessed n w1 ltac:(lia)) as H2.
  apply (accesses_within_mono _ _ 0 409) in H2; [| lia | lia].
  pose proof (accesses_within_store (nwResetEventSlotAdr 0) bs w2) as H3.
  apply (accesses_within_mono _ _ 0 409) in H3;
    [| rewrite slot_adr_small by lia; lia
     | rewrite slot_adr_small by lia; unfold bs; rewrite nwEvent_to_Str_length; lia].
  pose proof (accesses_within_store nwResetCountAdr cnt w3) as H4.
  apply (accesses_within_mono _ _ 0 409) in H4;
    [| change nwResetCountAdr with 37; lia
     | change nwResetCountAdr with 37; cbn [cnt length int_bytes le_encode]; lia].
  exact (accesses_within_trans _ _ _ _ _
           (accesses_within_trans _ _ _ _ _
              (accesses_within_trans _ _ _ _ _ H1 H2) H3) H4).
Qed.

Lemma shift_count_le_10 (w : World) :
  eval nwEEPROMResetEventCountGet w <= 10 ->
  shift_count w <= 9 /\
  int_wrap (shift_count w + 1) = Z.min (eval nwEEPROMResetEventCountGet w + 1) 10.
Proof.
  intros Hc. pose proof (count_range w) as Hr. unfold shift_count.
  change NW_MAX_RESET_EVENT with 10.
  destruct (Z.eqb_spec (eval nwEEPROMResetEventCountGet w) 10) as [E|E].
  - rewrite E. split; vm_compute; [discriminate | reflexivity].
  - split; [lia|]. rewrite int_wrap_small by lia. lia.
Qed.

Lemma read_event_wf (bs : list byte) :
  length bs = 37%nat -> nwEvent_wf (nwEvent_of_Str (nwEventStr_of_bytes bs)).
Proof.
  intros Hlen. split; cbn [nwEvent_of_Str nwEventStr_of_bytes _version _time version time].
  - rewrite length_take. change (Z.to_nat nwVersionSize) with 32%nat. lia.
  - pose proof (le_decode_range (take (Z.to_nat sizeof_time_t) (drop (Z.to_nat nwVersionSize) bs))) as H.
    rewrite length_take, length_drop in H.
    change (Z.to_nat nwVersionSize) with 32%nat in *.
    change (Z.to_nat sizeof_time_t) with 4%nat in *.
    replace (4 `min` (length bs - 32))%nat with 4%nat in H by lia.
    change (256 ^ Z.of_nat 4) with (2 ^ 32) in H. exact H.
Qed.

Lemma take_peek (c : Z -> byte) (adr : Z) (k n : nat) :
  (k <= n)%nat -> take k (peek c adr n) = peek c adr k.
Proof.
  revert adr n. induction k as [|k IH]; intros adr n Hk; [reflexivity|].
  destruct n as [|n]; [lia|]. cbn [peek take]. f_equal. apply IH. lia.
Qed.

Lemma valid_reason_bits (r : Z) :
  0 <= r <= NW_REASON_MAX -> Z.land r 127 = r /\ Z.testbit r 7 = false.
Proof.
  unfold NW_REASON_MAX. intros Hr.
  assert (Z.land r 127 = r) as H.
  { change 127 with (Z.ones 7). rewrite Z.land_ones by lia.
    apply Z.mod_small. change (2 ^ 7) with 128. lia. }
  split; [exact H|]. rewrite <- H, Z.land_spec.
  rewrite testbit_127 by lia. apply andb_false_r.
Qed.

(** * The claims on the log *)

(** Scenario: twelve insertions with the times 1..12 leave a count of 10,
    time 12 in slot 0 and time 3 in slot 9. *)
Example twelve_inserts :
  eval nwEEPROMResetEventCountGet (insert_times 12 1 blank) = 10 /\
  _time (eval (nwEEPROMResetEventGet 0) (insert_times 12 1 blank)) = 12 /\
  _time (eval (nwEEPROMResetEventGet 9) (insert_times 12 1 blank)) = 3.
Proof. vm_compute. repeat split. Qed.

(** C1. From a log whose stored count [c] is in 0..10, after
    [nwEEPROMResetEventSetNew( ev )] the stored count is [min(c + 1, 10)],
    slot 0 holds the serialised [ev] (and reads back as [ev] when its
    reason code is in 0..127), and every slot [i] in [1, min(c + 1, 10))
    holds the bytes slot [i-1] held before, and so reads back as the same
    event; for [c = 10] what slot 9 held is kept nowhere. *)
Theorem insert_shifts (ev : nwEvent) (index : Z) (w : World) :
  0 <= eval nwEEPROMResetEventCountGet w <= NW_MAX_RESET_EVENT ->
  eval nwEEPROMResetEventCountGet (exec (nwEEPROMResetEventSetNew ev index) w) =
    Z.min (eval nwEEPROMResetEventCountGet w + 1) NW_MAX_RESET_EVENT /\
  slot_bytes (exec (nwEEPROMResetEventSetNew ev index) w) 0 =
    nwEventStr_bytes (nwEvent_to_Str ev) /\
  (nwEvent_wf ev -> 0 <= _reason ev <= NW_REASON_MAX ->
   eval (nwEEPROMResetEventGet 0) (exec (nwEEPROMResetEventSetNew ev index) w) = ev) /\
  forall i,
    1 <= i < Z.min (eval nwEEPROMResetEventCountGet w + 1) NW_MAX_RESET_EVENT ->
    slot_bytes (exec (nwEEPROMResetEventSetNew ev index) w) i = slot_bytes w (i - 1) /\
    eval (nwEEPROMResetEventGet i) (exec (nwEEPROMResetEventSetNew ev index) w) =
    eval (nwEEPROMResetEventGet (i - 1)) w.
Proof.
  change NW_MAX_RESET_EVENT with 10. intros Hc.
  destruct (shift_count_le_10 w ltac:(lia)) as [Hs Hw].
  assert (Z.min (eval nwEEPROMResetEventCountGet w + 1) 10 = shift_count w + 1) as Hm.
  { unfold shift_count. change NW_MAX_RESET_EVENT with 10.
    destruct (Z.eqb_spec (eval nwEEPROMResetEventCountGet w) 10) as [E|E];
      [rewrite E; reflexivity | lia]. }
  split; [rewrite SetNew_count; exact Hw|].
  split; [apply SetNew_slot_0|].
  split.
  - intros Hwf Hr. rewrite ResetEventGet_eval by lia.
    rewrite SetNew_slot_0, event_of_written by exact Hwf.
    destruct (valid_reason_bits _ Hr) as [-> ->].
    rewrite orb_false_r. destruct ev; reflexivity.
  - intros i Hi. rewrite Hm in Hi.
    assert (slot_bytes (exec (nwEEPROMResetEventSetNew ev index) w) i =
            slot_bytes w (i - 1)) as Hb.
    { rewrite !slot_bytes_eq. apply list_eq. intros k.
      destruct (decide (k < 37)%nat) as [Hk|Hk].
      - rewrite !peek_lookup by exact Hk. f_equal.
        rewrite SetNew_cells_outside by lia.
        rewrite shift_loop_cells by lia. cbn [touch cells].
        replace ((76 <=? 39 + 37 * i + Z.of_nat k) &&
                 (39 + 37 * i + Z.of_nat k <? 76 + 37 * Z.of_nat (Z.to_nat (shift_count w))))
          with true.
        + f_equal. lia.
        + symmetry. apply andb_true_iff. split; [apply Z.leb_le | apply Z.ltb_lt]; lia.
      - rewrite !(proj2 (lookup_ge_None _ _)) by (rewrite peek_length; lia).
        reflexivity. }
    split; [exact Hb|].
    rewrite !ResetEventGet_eval by lia. rewrite Hb. reflexivity.
Qed.

Lemma insert_shifts_witness :
  0 <= eval nwEEPROMResetEventCountGet two_events <= NW_MAX_RESET_EVENT /\
  eval nwEEPROMResetEventCountGet
    (exec (nwEEPROMResetEventSetNew sample_event 0) two_events) =
  Z.min (eval nwEEPROMResetEventCountGet two_events + 1) NW_MAX_RESET_EVENT /\
  slot_bytes (exec (nwEEPROMResetEventSetNew sample_event 0) two_events) 1 =
  slot_bytes two_events (1 - 1).
Proof.
  assert (0 <= eval nwEEPROMResetEventCountGet two_events <= NW_MAX_RESET_EVENT) as H
    by (vm_compute; split; discriminate).
  destruct (insert_shifts sample_event 0 two_events H) as (Hcount & _ & _ & Hslots).
  split; [exact H|]. split; [exact Hcount|].
  apply (Hslots 1). vm_compute. split; [discriminate | reflexivity].
Defined.

(** C3, as the code has it. When the stored count [c], read as a 16-bit
    [int], is at most 10, negative values such as the 0xFFFF (-1) of an
    erased EEPROM included, [nwEEPROMResetEventSetNew] writes the new event
    at slot 0, accesses no address outside of [0, 409), and stores the
    count [min(c + 1, 10)]: 1 for a count of 0, but 0 for 0xFFFF. For
    [c <= 0] nothing is shifted: from slot 1 on every cell is unchanged. *)
Theorem insert_count_at_most_10 (ev : nwEvent) (index : Z) (w : World) :
  eval nwEEPROMResetEventCountGet w <= NW_MAX_RESET_EVENT ->
  slot_bytes (exec (nwEEPROMResetEventSetNew ev index) w) 0 =
    nwEventStr_bytes (nwEvent_to_Str ev) /\
  eval nwEEPROMResetEventCountGet (exec (nwEEPROMResetEventSetNew ev index) w) =
    Z.min (eval nwEEPROMResetEventCountGet w + 1) NW_MAX_RESET_EVENT /\
  accesses_within 0 409 w (exec (nwEEPROMResetEventSetNew ev index) w) /\
  (eval nwEEPROMResetEventCountGet w <= 0 ->
   forall a, a < 37 \/ 76 <= a ->
     cells (exec (nwEEPROMResetEventSetNew ev index) w) a = cells w a).
Proof.
  change NW_MAX_RESET_EVENT with 10. intros Hc.
  destruct (shift_count_le_10 w Hc) as [Hs Hw].
  split; [apply SetNew_slot_0|].
  split; [rewrite SetNew_count; exact Hw|].
  split; [apply SetNew_accessed; exact Hs|].
  intros H0 a Ha. rewrite SetNew_cells_outside by exact Ha.
  replace (shift_count w) with (eval nwEEPROMResetEventCountGet w).
  - replace (Z.to_nat (eval nwEEPROMResetEventCountGet w)) with 0%nat by lia.
    reflexivity.
  - unfold shift_count. change NW_MAX_RESET_EVENT with 10.
    destruct (Z.eqb_spec (eval nwEEPROMResetEventCountGet w) 10); [lia | reflexivity].
Qed.

Lemma insert_count_at_most_10_witness :
  eval nwEEPROMResetEventCountGet erased <= NW_MAX_RESET_EVENT /\
  accesses_within 0 409 erased (exec (nwEEPROMResetEventSetNew sample_event 0) erased).
Proof.
  assert (eval nwEEPROMResetEventCountGet erased <= NW_MAX_RESET_EVENT) as H
    by (vm_compute; discriminate).
  split; [exact H|]. apply (insert_count_at_most_10 sample_event 0 erased H).
Defined.

(** C3 fails on an erased EEPROM: the count read is 0xFFFF, that is -1,
    and the count stored by the insertion is 0, not 1. *)
Lemma insert_on_erased_stores_0 :
  eval nwEEPROMResetEventCountGet erased = -1 /\
  eval nwEEPROMResetEventCountGet
    (exec (nwEEPROMResetEventSetNew sample_event 0) erased) = 0 /\
  eval nwEEPROMResetEventCountGet
    (exec (nwEEPROMResetEventSetNew sample_event 0) erased) <> 1.
Proof.
  split; [vm_compute; reflexivity|].
  split; [vm_compute; reflexivity | vm_compute; discriminate].
Qed.

(** And with a stored count of 11 the loop shifts eleven slots, which
    reaches beyond the log: address 446 is where slot 11 would start. *)
Lemma insert_count_11_leaves_log :
  eval nwEEPROMResetEventCountGet count_11 = 11 /\
  eval nwEEPROMResetEventCountGet
    (exec (nwEEPROMResetEventSetNew sample_event 0) count_11) = 12 /\
  existsb (Z.eqb 446)
    (accessed (exec (nwEEPROMResetEventSetNew sample_event 0) count_11)) = true.
Proof. repeat split; vm_compute; reflexivity. Qed.

(** C9. The index given to [nwEEPROMResetEventSetNew] is not used: two
    calls that differ in it only give the same board, and the event is
    written to slot 0 from any state. *)
Theorem insert_ignores_index (ev : nwEvent) (w : World) (i j : Z) :
  nwEEPROMResetEventSetNew ev i w = nwEEPROMResetEventSetNew ev j w /\
  slot_bytes (exec (nwEEPROMResetEventSetNew ev i) w) 0 =
    nwEventStr_bytes (nwEvent_to_Str ev).
Proof. split; [reflexivity | apply SetNew_slot_0]. Qed.

(** * The claims on the version field and on the acknowledgement *)

(** C5, as the code has it. The events built by [nwEvent()] and by
    [nwEvent( reason )] have a null-terminated version. [readFromEEPROM]
    takes the 32 stored bytes as they are: the version it yields is
    null-terminated exactly when one of these bytes is null. *)
Theorem version_null_terminated (this : nwEvent) (reason adr : Z) (w : World) :
  length (_version this) = Z.to_nat nwVersionSize ->
  null_terminated (_version (eval nwEvent_new w)) = true /\
  null_terminated (_version (eval (nwEvent_new_reason reason) w)) = true /\
  null_terminated (_version (eval (readFromEEPROM this adr) w)) =
    existsb (fun c => Byte.eqb c x00) (peek (cells w) adr (Z.to_nat nwVersionSize)).
Proof.
  intros Hthis. split; [reflexivity|]. split; [reflexivity|].
  unfold eval. rewrite readFromEEPROM_run by exact Hthis.
  cbn [fst nwEvent_of_Str nwEventStr_of_bytes _version version].
  unfold null_terminated, record_bytes.
  rewrite !take_peek; [reflexivity | lia | vm_compute; lia].
Qed.

Lemma version_null_terminated_witness :
  length (_version sample_event) = Z.to_nat nwVersionSize /\
  null_terminated (_version (eval (nwEvent_new_reason 16) erased)) = true.
Proof.
  assert (length (_version sample_event) = Z.to_nat nwVersionSize) as H by reflexivity.
  split; [exact H|]. apply (version_null_terminated sample_event 16 0 erased H).
Defined.

(** C5 fails for [readFromEEPROM]: the version read from an erased EEPROM
    is 32 bytes 0xFF, without a terminator. *)
Lemma version_read_from_erased :
  null_terminated (_version (eval (readFromEEPROM sample_event 0) erased)) = false.
Proof. vm_compute. reflexivity. Qed.

(** C6. For a slot [i] in [0, 10): reading the slot, acknowledging the
    event and writing it back with [nwEEPROMResetEventSet] gives a log
    where slot [i] reads back acknowledged, with the version, time and
    reason it had, and where every cell outside of slot [i] is unchanged:
    the other slots, the initialisation event and the count. *)
Theorem acknowledge_in_place (i : Z) (w : World) :
  0 <= i < NW_MAX_RESET_EVENT ->
  let ev := eval (nwEEPROMResetEventGet i) w in
  let w' := exec (nwEEPROMResetEventSet (acknowledge ev true) i)
                 (exec (nwEEPROMResetEventGet i) w) in
  let ev' := eval (nwEEPROMResetEventGet i) w' in
  (_ack ev' = true /\ _version ev' = _version ev /\
   _time ev' = _time ev /\ _reason ev' = _reason ev) /\
  (forall j, 0 <= j < NW_MAX_RESET_EVENT -> j <> i ->
     slot_bytes w' j = slot_bytes w j) /\
  record_bytes w' nwInitEventAdr = record_bytes w nwInitEventAdr /\
  peek (cells w') nwResetCountAdr 2 = peek (cells w) nwResetCountAdr 2 /\
  (forall a, a < 39 + 37 * i \/ 39 + 37 * i + 37 <= a -> cells w' a = cells w a).
Proof.
  change NW_MAX_RESET_EVENT with 10. intros Hi ev w' ev'.
  set (bs := nwEventStr_bytes (nwEvent_to_Str (acknowledge ev true))).
  assert (length bs = 37%nat) as Hbs by apply nwEvent_to_Str_length.
  assert (cells w' = poke (cells w) (39 + 37 * i) bs) as Hw'.
  { unfold w', exec. rewrite ResetEventSet_run, ResetEventGet_run.
    rewrite slot_adr_small by lia. reflexivity. }
  assert (forall a, a < 39 + 37 * i \/ 39 + 37 * i + 37 <= a ->
                    cells w' a = cells w a) as Hframe.
  { intros a Ha. rewrite Hw'. apply poke_outside. rewrite Hbs. lia. }
  split; [|split; [|split; [|split]]].
  - assert (nwEvent_wf (acknowledge ev true)) as Hwf.
    { unfold ev, eval. rewrite ResetEventGet_run. cbn [fst].
      destruct (read_event_wf (record_bytes w (nwResetEventSlotAdr i))
                  (record_bytes_length _ _)) as [H1 H2].
      split; assumption. }
    assert (slot_bytes w' i = bs) as Hslot.
    { rewrite slot_bytes_eq, Hw', <- Hbs. apply peek_poke. }
    unfold ev'. rewrite ResetEventGet_eval by lia. rewrite Hslot.
    unfold bs. rewrite event_of_written by exact Hwf.
    cbn [_ack _version _time _reason acknowledge].
    repeat split.
    unfold ev, eval. rewrite ResetEventGet_run.
    cbn [fst nwEvent_of_Str _reason].
    rewrite <- Z.land_assoc. reflexivity.
  - intros j Hj Hne. rewrite !slot_bytes_eq. apply peek_ext.
    intros a Ha. apply Hframe. lia.
  - unfold record_bytes. apply peek_ext. intros a Ha. apply Hframe.
    change nwInitEventAdr with 0 in Ha.
    change (Z.of_nat (Z.to_nat nwEventStrSize)) with 37 in Ha. lia.
  - apply peek_ext. intros a Ha. apply Hframe.
    change nwResetCountAdr with 37 in Ha. lia.
  - exact Hframe.
Qed.

Lemma acknowledge_in_place_witness :
  0 <= 0 < NW_MAX_RESET_EVENT /\
  _ack (eval (nwEEPROMResetEventGet 0)
          (exec (nwEEPROMResetEventSet
                   (acknowledge (eval (nwEEPROMResetEventGet 0) two_events) true) 0)
                (exec (nwEEPROMResetEventGet 0) two_events))) = true.
Proof.
  assert (0 <= 0 < NW_MAX_RESET_EVENT) as H by (unfold NW_MAX_RESET_EVENT; lia).
  split; [exact H|]. apply (acknowledge_in_place 0 two_events H).
Defined.

(** * Further properties of the library *)

(** ** Records at any address *)

Lemma record_bytes_store (adr : Z) (bs : list byte) (w : World) :
  length bs = 37%nat -> record_bytes (store adr bs w) adr = bs.
Proof.
  intros Hlen. unfold record_bytes, store. cbn [cells].
  change (Z.to_nat nwEventStrSize) with 37%nat. rewrite <- Hlen.
  apply peek_poke.
Qed.

Lemma valid_event_read_back (ev : nwEvent) :
  nwEvent_wf ev -> 0 <= _reason ev <= NW_REASON_MAX ->
  nwEvent_of_Str (nwEventStr_of_bytes (nwEventStr_bytes (nwEvent_to_Str ev))) = ev.
Proof.
  intros Hwf Hr. rewrite event_of_written by exact Hwf.
  destruct (valid_reason_bits _ Hr) as [-> ->].
  rewrite orb_false_r. destruct ev; reflexivity.
Qed.

Lemma sample_event_wf : nwEvent_wf sample_event.
Proof. split; [reflexivity | vm_compute; split; [discriminate | reflexivity]]. Qed.

Lemma sample_event_reason : 0 <= _reason sample_event <= NW_REASON_MAX.
Proof. vm_compute. split; discriminate. Qed.

(** X1. An event with a reason code in 0..127 that is written as the
    initialisation event is the event [nwEEPROMInitEventGet] returns. *)
Theorem init_event_round_trip (ev : nwEvent) (w : World) :
  nwEvent_wf ev -> 0 <= _reason ev <= NW_REASON_MAX ->
  eval nwEEPROMInitEventGet (exec (nwEEPROMInitEventSet ev) w) = ev.
Proof.
  intros Hwf Hr. unfold eval, exec.
  unfold nwEEPROMInitEventSet. rewrite writeToEEPROM_run, InitEventGet_run.
  cbn [fst snd]. rewrite record_bytes_store by apply nwEvent_to_Str_length.
  apply valid_event_read_back; assumption.
Qed.

Lemma init_event_round_trip_witness :
  nwEvent_wf sample_event /\ 0 <= _reason sample_event <= NW_REASON_MAX /\
  eval nwEEPROMInitEventGet (exec (nwEEPROMInitEventSet sample_event) erased) =
  sample_event.
Proof.
  split; [exact sample_event_wf|]. split; [exact sample_event_reason|].
  apply (init_event_round_trip sample_event erased sample_event_wf sample_event_reason).
Defined.

(** X2. Writing the initialisation event changes the cells 0..36 only:
    the stored count and every ring slot are as before, and no address
    from 37 on is accessed. *)
Theorem init_event_set_frame (ev : nwEvent) (w : World) (i : Z) :
  0 <= i ->
  same_cells_outside 0 37 w (exec (nwEEPROMInitEventSet ev) w) /\
  eval nwEEPROMResetEventCountGet (exec (nwEEPROMInitEventSet ev) w) =
    eval nwEEPROMResetEventCountGet w /\
  slot_bytes (exec (nwEEPROMInitEventSet ev) w) i = slot_bytes w i /\
  accesses_within 0 37 w (exec (nwEEPROMInitEventSet ev) w).
Proof.
  intros Hi.
  assert (exec (nwEEPROMInitEventSet ev) w =
          store 0 (nwEventStr_bytes (nwEvent_to_Str ev)) w) as Hw.
  { unfold exec, nwEEPROMInitEventSet. rewrite writeToEEPROM_run. reflexivity. }
  assert (same_cells_outside 0 37 w (exec (nwEEPROMInitEventSet ev) w)) as Hf.
  { intros a Ha. rewrite Hw. cbn [store cells]. symmetry.
    apply poke_outside. rewrite nwEvent_to_Str_length. lia. }
  split; [exact Hf|]. split; [|split].
  - rewrite !CountGet_eval. apply (f_equal int_of_bytes).
    apply peek_ext. intros a Ha. symmetry. apply Hf. lia.
  - rewrite !slot_bytes_eq. apply peek_ext. intros a Ha.
    symmetry. apply Hf. lia.
  - rewrite Hw.
    pose proof (accesses_within_store 0 (nwEventStr_bytes (nwEvent_to_Str ev)) w) as H.
    rewrite nwEvent_to_Str_length in H. exact H.
Qed.

Lemma init_event_set_frame_witness :
  0 <= 0 /\
  eval nwEEPROMResetEventCountGet (exec (nwEEPROMInitEventSet sample_event) two_events) =
    eval nwEEPROMResetEventCountGet two_events /\
  slot_bytes (exec (nwEEPROMInitEventSet sample_event) two_events) 0 =
    slot_bytes two_events 0.
Proof.
  assert (0 <= 0) as H by lia.
  destruct (init_event_set_frame sample_event two_events 0 H) as (_ & Hc & Hs & _).
  split; [exact H|]. split; [exact Hc | exact Hs].
Defined.

(** X3. [nwEEPROMResetEventSet] does not check its index against
    [NW_MAX_RESET_EVENT]: for every index from 0 to 25 it stores the
    serialised event in the 37 cells from [39 + 37 * index] on, accesses
    these addresses only, and leaves every other cell as it was, the
    initialisation event and the count included. *)
Theorem reset_event_set_in_place (ev : nwEvent) (i : Z) (w : World) :
  0 <= i <= 25 ->
  slot_bytes (exec (nwEEPROMResetEventSet ev i) w) i =
    nwEventStr_bytes (nwEvent_to_Str ev) /\
  same_cells_outside (39 + 37 * i) (39 + 37 * i + 37)
    w (exec (nwEEPROMResetEventSet ev i) w) /\
  eval nwEEPROMResetEventCountGet (exec (nwEEPROMResetEventSet ev i) w) =
    eval nwEEPROMResetEventCountGet w /\
  record_bytes (exec (nwEEPROMResetEventSet ev i) w) nwInitEventAdr =
    record_bytes w nwInitEventAdr /\
  accesses_within (39 + 37 * i) (39 + 37 * i + 37)
    w (exec (nwEEPROMResetEventSet ev i) w).
Proof.
  intros Hi.
  assert (exec (nwEEPROMResetEventSet ev i) w =
          store (39 + 37 * i) (nwEventStr_bytes (nwEvent_to_Str ev)) w) as Hw.
  { unfold exec. rewrite ResetEventSet_run, slot_adr_small by lia. reflexivity. }
  assert (same_cells_outside (39 + 37 * i) (39 + 37 * i + 37)
            w (exec (nwEEPROMResetEventSet ev i) w)) as Hf.
  { intros a Ha. rewrite Hw. cbn [store cells]. symmetry.
    apply poke_outside. rewrite nwEvent_to_Str_length. lia. }
  split; [|split; [exact Hf|split; [|split]]].
  - rewrite Hw. unfold slot_bytes.
    replace (nwResetEventAdr + i * nwEventStrSize) with (39 + 37 * i)
      by (change nwResetEventAdr with 39; change nwEventStrSize with 37; lia).
    apply record_bytes_store, nwEvent_to_Str_length.
  - rewrite !CountGet_eval. apply (f_equal int_of_bytes).
    apply peek_ext. intros a Ha. symmetry. apply Hf. lia.
  - unfold record_bytes. apply peek_ext. intros a Ha. symmetry. apply Hf.
    change nwInitEventAdr with 0 in Ha.
    change (Z.of_nat (Z.to_nat nwEventStrSize)) with 37 in Ha. lia.
  - rewrite Hw.
    pose proof (accesses_within_store (39 + 37 * i)
                  (nwEventStr_bytes (nwEvent_to_Str ev)) w) as H.
    rewrite nwEvent_to_Str_length in H. exact H.
Qed.

Lemma reset_event_set_in_place_witness :
  0 <= 10 <= 25 /\
  slot_bytes (exec (nwEEPROMResetEventSet sample_event 10) erased) 10 =
    nwEventStr_bytes (nwEvent_to_Str sample_event).
Proof.
  assert (0 <= 10 <= 25) as H by lia.
  split; [exact H|]. apply (reset_event_set_in_place sample_event 10 erased H).
Defined.

(** X4. An event with a reason code in 0..127 that is written to a slot
    with [nwEEPROMResetEventSet] is the event [nwEEPROMResetEventGet]
    returns for that slot. *)
Theorem reset_event_round_trip (ev : nwEvent) (i : Z) (w : World) :
  0 <= i < NW_MAX_RESET_EVENT ->
  nwEvent_wf ev -> 0 <= _reason ev <= NW_REASON_MAX ->
  eval (nwEEPROMResetEventGet i) (exec (nwEEPROMResetEventSet ev i) w) = ev.
Proof.
  change NW_MAX_RESET_EVENT with 10. intros Hi Hwf Hr. unfold eval, exec.
  rewrite ResetEventSet_run, ResetEventGet_run. cbn [fst snd].
  rewrite record_bytes_store by apply nwEvent_to_Str_length.
  apply valid_event_read_back; assumption.
Qed.

Lemma reset_event_round_trip_witness :
  0 <= 9 < NW_MAX_RESET_EVENT /\
  nwEvent_wf sample_event /\ 0 <= _reason sample_event <= NW_REASON_MAX /\
  eval (nwEEPROMResetEventGet 9) (exec (nwEEPROMResetEventSet sample_event 9) erased) =
  sample_event.
Proof.
  assert (0 <= 9 < NW_MAX_RESET_EVENT) as H by (unfold NW_MAX_RESET_EVENT; lia).
  split; [exact H|]. split; [exact sample_event_wf|]. split; [exact sample_event_reason|].
  apply (reset_event_round_trip sample_event 9 erased H sample_event_wf sample_event_reason).
Defined.

(** ** What an event read from the EEPROM looks like *)

Lemma drop_peek (c : Z -> byte) (k n : nat) (adr : Z) :
  drop k (peek c adr n) = peek c (adr + Z.of_nat k) (n - k).
Proof.
  revert n adr. induction k as [|k IH]; intros n adr.
  - rewrite Z.add_0_r, Nat.sub_0_r. reflexivity.
  - destruct n as [|n]; [reflexivity|].
    cbn [peek drop]. rewrite IH. f_equal. lia.
Qed.

Lemma read_event_time (this : nwEvent) (adr : Z) (w : World) :
  length (_version this) = Z.to_nat nwVersionSize ->
  _time (eval (readFromEEPROM this adr) w) = le_decode (peek (cells w) (adr + 32) 4).
Proof.
  intros Hthis. unfold eval. rewrite readFromEEPROM_run by exact Hthis.
  cbn [fst nwEvent_of_Str nwEventStr_of_bytes _time time].
  unfold record_bytes. rewrite drop_peek, take_peek by (vm_compute; lia).
  reflexivity.
Qed.

Lemma byte_to_Z_0 (b : byte) : byte_to_Z b = 0 -> b = x00.
Proof. intros H. rewrite <- (byte_of_to_Z b), H. reflexivity. Qed.

(** X5. An event read from the EEPROM is null exactly when the four
    stored bytes of its time are zero; so the events of an erased EEPROM,
    whose time reads as 0xFFFFFFFF, are not null. *)
Theorem read_event_is_null (this : nwEvent) (adr : Z) (w : World) :
  length (_version this) = Z.to_nat nwVersionSize ->
  isNull (eval (readFromEEPROM this adr) w) = true <->
  peek (cells w) (adr + 32) 4 = [x00; x00; x00; x00].
Proof.
  intros Hthis. unfold isNull. rewrite read_event_time by exact Hthis.
  rewrite Z.eqb_eq. cbn [peek le_decode].
  set (b0 := cells w (adr + 32)). set (b1 := cells w (adr + 32 + 1)).
  set (b2 := cells w (adr + 32 + 1 + 1)). set (b3 := cells w (adr + 32 + 1 + 1 + 1)).
  pose proof (byte_to_Z_range b0). pose proof (byte_to_Z_range b1).
  pose proof (byte_to_Z_range b2). pose proof (byte_to_Z_range b3).
  split.
  - intros H3.
    rewrite (byte_to_Z_0 b0), (byte_to_Z_0 b1), (byte_to_Z_0 b2), (byte_to_Z_0 b3)
      by lia. reflexivity.
  - intros E. injection E as -> -> -> ->. reflexivity.
Qed.

Lemma read_event_is_null_witness :
  length (_version sample_event) = Z.to_nat nwVersionSize /\
  (isNull (eval (readFromEEPROM sample_event 0) blank) = true <->
   peek (cells blank) (0 + 32) 4 = [x00; x00; x00; x00]).
Proof.
  assert (length (_version sample_event) = Z.to_nat nwVersionSize) as H by reflexivity.
  split; [exact H|]. apply (read_event_is_null sample_event 0 blank H).
Defined.

Lemma land_127_range (x : Z) : 0 <= Z.land x 127 <= NW_REASON_MAX.
Proof.
  unfold NW_REASON_MAX. change 127 with (Z.ones 7) at 1 2.
  rewrite Z.land_ones by lia.
  pose proof (Z.mod_pos_bound x (2 ^ 7) ltac:(lia)) as H.
  change (2 ^ 7) with 128 in *. change (Z.ones 7) with 127. lia.
Qed.

(** X6. Whatever the EEPROM holds, an event read from it has a version of
    32 bytes, a time below 2^32 and a reason code in 0..127. *)
Theorem read_event_invariants (this : nwEvent) (adr : Z) (w : World) :
  length (_version this) = Z.to_nat nwVersionSize ->
  nwEvent_wf (eval (readFromEEPROM this adr) w) /\
  0 <= _reason (eval (readFromEEPROM this adr) w) <= NW_REASON_MAX.
Proof.
  intros Hthis. unfold eval. rewrite readFromEEPROM_run by exact Hthis.
  cbn [fst]. split.
  - apply read_event_wf, record_bytes_length.
  - cbn [nwEvent_of_Str _reason]. apply land_127_range.
Qed.

Lemma read_event_invariants_witness :
  length (_version sample_event) = Z.to_nat nwVersionSize /\
  0 <= _reason (eval (readFromEEPROM sample_event 0) erased) <= NW_REASON_MAX.
Proof.
  assert (length (_version sample_event) = Z.to_nat nwVersionSize) as H by reflexivity.
  split; [exact H|]. apply (read_event_invariants sample_event 0 erased H).
Defined.

(** ** The version copied by [setup] *)

Lemma setup_version_prefix (s rest pre post : list byte) :
  Forall (fun c => c <> x00) s -> (length s < length post)%nat ->
  setup_version (s ++ x00 :: rest) (length pre) (pre ++ post) =
  pre ++ s ++ x00 :: drop (length s + 1) post.
Proof.
  revert pre post. induction s as [|c s IH]; intros pre post Hs Hlen.
  - cbn [app setup_version length]. change (Byte.eqb x00 x00) with true.
    destruct post as [|p post]; [cbn in Hlen; lia|].
    rewrite (insert_app_r_alt pre (p :: post) (length pre) x00) by lia.
    rewrite Nat.sub_diag. reflexivity.
  - inversion Hs as [|c' s' Hc Hs']; subst c' s'.
    destruct post as [|p post]; [cbn in Hlen; lia|]. cbn [length] in Hlen.
    cbn [app setup_version].
    replace (Byte.eqb c x00) with false.
    + rewrite (insert_app_r_alt pre (p :: post) (length pre) c) by lia.
      rewrite Nat.sub_diag. cbn [insert list_insert].
      replace (pre ++ c :: post) with ((pre ++ [c]) ++ post)
        by (rewrite <- app_assoc; reflexivity).
      replace (S (length pre)) with (length (pre ++ [c]))
        by (rewrite length_app; cbn; lia).
      rewrite IH by (assumption || lia).
      rewrite <- app_assoc. reflexivity.
    + symmetry. destruct (Byte.eqb c x00) eqn:E; [|reflexivity].
      apply Byte.byte_dec_bl in E. contradiction.
Qed.

(** X7. The loop of [setup] copies the string up to its terminator and
    no further: for a string of less than 32 characters the version is
    the string followed by null bytes up to 32, so it is null-terminated,
    whatever follows the terminator in flash. *)
Theorem setup_version_copies (s rest : list byte) :
  Forall (fun c => c <> x00) s -> (length s < 32)%nat ->
  setup_version (s ++ x00 :: rest) 0 (replicate (Z.to_nat nwVersionSize) x00) =
    s ++ replicate (32 - length s) x00 /\
  null_terminated
    (setup_version (s ++ x00 :: rest) 0 (replicate (Z.to_nat nwVersionSize) x00)) = true.
Proof.
  intros Hs Hlen. change (Z.to_nat nwVersionSize) with 32%nat.
  assert (setup_version (s ++ x00 :: rest) 0 (replicate 32 x00) =
          s ++ replicate (32 - length s) x00) as E.
  { pose proof (setup_version_prefix s rest [] (replicate 32 x00) Hs) as H.
    cbn [length app] in H. rewrite H by (rewrite length_replicate; exact Hlen).
    rewrite drop_replicate. f_equal.
    replace (32 - length s)%nat with (S (32 - (length s + 1))) by lia.
    reflexivity. }
  split; [exact E|]. rewrite E. unfold null_terminated.
  change (Z.to_nat nwVersionSize) with 32%nat.
  apply existsb_exists. exists x00. split; [|reflexivity].
  apply list_elem_of_In. apply list_elem_of_lookup. exists (length s).
  rewrite lookup_take_lt by exact Hlen.
  rewrite lookup_app_r by lia. rewrite Nat.sub_diag.
  apply lookup_replicate_2. lia.
Qed.

Lemma setup_version_copies_witness :
  Forall (fun c => c <> x00) [x4e; x57] /\ (length [x4e; x57] < 32)%nat /\
  setup_version ([x4e; x57] ++ x00 :: [x21]) 0 (replicate (Z.to_nat nwVersionSize) x00) =
    [x4e; x57] ++ replicate (32 - length [x4e; x57]) x00.
Proof.
  assert (Forall (fun c => c <> x00) [x4e; x57]) as H1
    by (repeat constructor; discriminate).
  assert (length [x4e; x57] < 32)%nat as H2 by (cbn; lia).
  split; [exact H1|]. split; [exact H2|].
  apply (setup_version_copies [x4e; x57] [x21] H1 H2).
Defined.

(** ** Setting and clearing the acknowledgement *)

Lemma repacked_byte (b : byte) (flag : bool) :
  byte_to_Z (byte_of_Z (Z.lor (byte_to_Z (byte_of_Z (Z.land (byte_to_Z b) 127)))
                              (if flag then 128 else 0))) =
  Z.lor (Z.land (byte_to_Z b) 127) (if flag then 128 else 0).
Proof. destruct b, flag; vm_compute; reflexivity. Qed.

Lemma bytes_of_acknowledged (bs : list byte) (flag : bool) :
  length bs = 37%nat ->
  nwEventStr_bytes
    (nwEvent_to_Str (acknowledge (nwEvent_of_Str (nwEventStr_of_bytes bs)) flag)) =
  take 36 bs ++
  [ack_reason (nwEvent_to_Str (acknowledge (nwEvent_of_Str (nwEventStr_of_bytes bs)) flag))].
Proof.
  intros Hlen.
  unfold nwEventStr_bytes at 1.
  cbn [version time nwEvent_to_Str acknowledge nwEvent_of_Str nwEventStr_of_bytes
       _version _time].
  change (Z.to_nat nwVersionSize) with 32%nat.
  change (Z.to_nat sizeof_time_t) with 4%nat.
  rewrite copy_chars_all;
    [| rewrite length_take; lia | apply length_replicate ].
  assert (le_encode 4 (le_decode (take 4 (drop 32 bs))) = take 4 (drop 32 bs)) as ->.
  { pose proof (le_encode_decode (take 4 (drop 32 bs))) as H.
    rewrite length_take, length_drop in H.
    replace (4 `min` (length bs - 32))%nat with 4%nat in H by lia. exact H. }
  rewrite app_assoc, take_take_drop. reflexivity.
Qed.

(** X8. Reading a record, setting its acknowledgement to any flag and
    writing it back changes one cell at most, the last of the record: its
    low seven bits stay and bit 7 becomes the flag. The record then reads
    back with the flag, and with the version, time and reason it had; so
    an acknowledgement can be withdrawn as well as given. *)
Theorem set_acknowledgement (this : nwEvent) (adr : Z) (flag : bool) (w : World) :
  length (_version this) = Z.to_nat nwVersionSize ->
  let ev := eval (readFromEEPROM this adr) w in
  let w' := exec (writeToEEPROM (acknowledge ev flag) adr)
                 (exec (readFromEEPROM this adr) w) in
  same_cells_outside (adr + 36) (adr + 37) w w' /\
  byte_to_Z (cells w' (adr + 36)) =
    Z.lor (Z.land (byte_to_Z (cells w (adr + 36))) 127) (if flag then 128 else 0) /\
  all_fields (eval (readFromEEPROM this adr) w') =
    (_version ev, _time ev, _reason ev, flag).
Proof.
  intros Hthis ev w'.
  set (bs := record_bytes w adr).
  assert (length bs = 37%nat) as Hbs by apply record_bytes_length.
  assert (ev = nwEvent_of_Str (nwEventStr_of_bytes bs)) as Hev.
  { unfold ev, eval. rewrite readFromEEPROM_run by exact Hthis. reflexivity. }
  assert (w' = store adr (nwEventStr_bytes (nwEvent_to_Str (acknowledge ev flag)))
                 (touch adr (Z.to_nat nwEventStrSize) w)) as Hw'.
  { unfold w', exec. rewrite writeToEEPROM_run, readFromEEPROM_run by exact Hthis.
    reflexivity. }
  assert (bs !! 36%nat = Some (cells w (adr + 36))) as H36.
  { unfold bs, record_bytes. rewrite peek_lookup by (vm_compute; lia). reflexivity. }
  assert (cells w' (adr + 36) = ack_reason (nwEvent_to_Str (acknowledge ev flag))) as Hlast.
  { rewrite Hw'. cbn [store cells]. change 36 with (Z.of_nat 36).
    apply poke_inside. rewrite Hev, bytes_of_acknowledged by exact Hbs.
    rewrite lookup_app_r by (rewrite length_take; lia).
    rewrite length_take. replace (36 - 36 `min` length bs)%nat with 0%nat by lia.
    reflexivity. }
  split; [|split].
  - intros a Ha. rewrite Hw'. cbn [store touch cells].
    destruct (decide (adr <= a < adr + 36)) as [Hin|Hout].
    + replace a with (adr + Z.of_nat (Z.to_nat (a - adr))) at 2 by lia.
      symmetry. apply poke_inside.
      rewrite Hev, bytes_of_acknowledged by exact Hbs.
      rewrite lookup_app_l by (rewrite length_take; lia).
      rewrite lookup_take_lt by lia.
      unfold bs, record_bytes. change (Z.to_nat nwEventStrSize) with 37%nat.
      rewrite peek_lookup by lia. f_equal. f_equal. lia.
    + symmetry. apply poke_outside. rewrite nwEvent_to_Str_length. lia.
  - rewrite Hlast, Hev.
    cbn [ack_reason nwEvent_to_Str acknowledge nwEvent_of_Str _reason _ack].
    rewrite repacked_byte. do 3 f_equal.
    cbn [nwEventStr_of_bytes ack_reason].
    change (Z.to_nat nwVersionSize + Z.to_nat sizeof_time_t)%nat with 36%nat.
    rewrite list_lookup_total_alt, lookup_drop, Nat.add_0_r, H36. reflexivity.
  - assert (nwEvent_wf (acknowledge ev flag)) as Hwf.
    { rewrite Hev. destruct (read_event_wf bs Hbs) as [H1 H2]. split; assumption. }
    unfold eval. rewrite readFromEEPROM_run by exact Hthis. cbn [fst].
    rewrite Hw', record_bytes_store by apply nwEvent_to_Str_length.
    rewrite event_of_written by exact Hwf.
    unfold all_fields. cbn [_version _time _reason _ack acknowledge].
    destruct (valid_reason_bits (_reason ev)) as [-> ->].
    { rewrite Hev. apply land_127_range. }
    rewrite orb_false_r. reflexivity.
Qed.

Lemma set_acknowledgement_witness :
  length (_version sample_event) = Z.to_nat nwVersionSize /\
  byte_to_Z (cells (exec (writeToEEPROM
                            (acknowledge (eval (readFromEEPROM sample_event 39) erased) false) 39)
                         (exec (readFromEEPROM sample_event 39) erased)) (39 + 36)) =
  Z.lor (Z.land (byte_to_Z (cells erased (39 + 36))) 127) (if false then 128 else 0).
Proof.
  assert (length (_version sample_event) = Z.to_nat nwVersionSize) as H by reflexivity.
  split; [exact H|]. apply (set_acknowledgement sample_event 39 false erased H).
Defined.

(** ** Logging a new event *)

(** X9. After a newly built event with a reason code in 0..127 is
    inserted, whatever the log held, slot 0 reads back with that reason,
    the time of the clock, the version of the firmware and no
    acknowledgement. *)
Theorem insert_new_event (r index : Z) (w : World) :
  0 <= r <= NW_REASON_MAX -> 0 <= clock w < 2 ^ 32 ->
  all_fields
    (eval (nwEEPROMResetEventGet 0)
       (exec (nwEEPROMResetEventSetNew (eval (nwEvent_new_reason r) w) index) w)) =
  (_version (eval nwEvent_new w), clock w, r, false).
Proof.
  intros Hr Hc.
  rewrite ResetEventGet_eval by lia. rewrite SetNew_slot_0.
  rewrite valid_event_read_back; [reflexivity | split; [reflexivity | exact Hc] | exact Hr].
Qed.

Lemma insert_new_event_witness :
  0 <= 16 <= NW_REASON_MAX /\ 0 <= clock erased < 2 ^ 32 /\
  all_fields
    (eval (nwEEPROMResetEventGet 0)
       (exec (nwEEPROMResetEventSetNew (eval (nwEvent_new_reason 16) erased) 0) erased)) =
  (_version (eval nwEvent_new erased), clock erased, 16, false).
Proof.
  assert (0 <= 16 <= NW_REASON_MAX) as H1 by (unfold NW_REASON_MAX; lia).
  assert (0 <= clock erased < 2 ^ 32) as H2 by (cbn; lia).
  split; [exact H1|]. split; [exact H2|].
  apply (insert_new_event 16 0 erased H1 H2).
Defined.

(** ** Insertion: the cells it leaves alone *)

Lemma shift_count_eq (w : World) :
  0 <= eval nwEEPROMResetEventCountGet w <= 10 ->
  shift_count w = Z.min (eval nwEEPROMResetEventCountGet w) 9.
Proof.
  intros Hc. unfold shift_count. change NW_MAX_RESET_EVENT with 10.
  destruct (Z.eqb_spec (eval nwEEPROMResetEventCountGet w) 10) as [E|E];
    [rewrite E; reflexivity | lia].
Qed.

Lemma peek_moved (c c' : Z -> byte) (n : nat) (adr adr' : Z) :
  (forall k, (k < n)%nat -> c (adr + Z.of_nat k) = c' (adr' + Z.of_nat k)) ->
  peek c adr n = peek c' adr' n.
Proof.
  intros H. apply list_eq. intros k.
  destruct (decide (k < n)%nat) as [Hk|Hk].
  - rewrite !peek_lookup by exact Hk. f_equal. apply H. exact Hk.
  - rewrite !(proj2 (lookup_ge_None _ _)) by (rewrite peek_length; lia).
    reflexivity.
Qed.

Lemma SetNew_slot_shift (ev : nwEvent) (index : Z) (w : World) (i : Z) :
  shift_count w <= 9 -> 1 <= i <= shift_count w ->
  slot_bytes (exec (nwEEPROMResetEventSetNew ev index) w) i = slot_bytes w (i - 1).
Proof.
  intros Hs Hi. rewrite !slot_bytes_eq. apply peek_moved. intros k Hk.
  rewrite SetNew_cells_outside by lia.
  rewrite shift_loop_cells by lia. cbn [touch cells].
  replace ((76 <=? 39 + 37 * i + Z.of_nat k) &&
           (39 + 37 * i + Z.of_nat k <? 76 + 37 * Z.of_nat (Z.to_nat (shift_count w))))
    with true.
  - f_equal. lia.
  - symmetry. apply andb_true_iff. split; [apply Z.leb_le | apply Z.ltb_lt]; lia.
Qed.

Lemma SetNew_cells_frame (ev : nwEvent) (index : Z) (w : World) (a : Z) :
  shift_count w <= 9 ->
  a < 37 \/ 76 + 37 * Z.max 0 (shift_count w) <= a ->
  cells (exec (nwEEPROMResetEventSetNew ev index) w) a = cells w a.
Proof.
  intros Hs Ha. rewrite SetNew_cells_outside by lia.
  rewrite shift_loop_cells by lia. cbn [touch cells].
  replace ((76 <=? a) && (a <? 76 + 37 * Z.of_nat (Z.to_nat (shift_count w))))
    with false; [reflexivity|].
  symmetry. apply andb_false_iff.
  destruct Ha as [Ha|Ha]; [left; apply Z.leb_gt | right; apply Z.ltb_ge]; lia.
Qed.

(** X10. From a log with a count [c] in 0..10 an insertion writes the
    count and the slots 0 to [min(c + 1, 10) - 1] only: the
    initialisation event, the slots from [min(c + 1, 10)] on and every
    cell beyond the log are as before. *)
Theorem insert_frame (ev : nwEvent) (index : Z) (w : World) (j : Z) :
  0 <= eval nwEEPROMResetEventCountGet w <= NW_MAX_RESET_EVENT ->
  same_cells_outside 37
    (39 + 37 * Z.min (eval nwEEPROMResetEventCountGet w + 1) NW_MAX_RESET_EVENT)
    w (exec (nwEEPROMResetEventSetNew ev index) w) /\
  record_bytes (exec (nwEEPROMResetEventSetNew ev index) w) nwInitEventAdr =
    record_bytes w nwInitEventAdr /\
  (Z.min (eval nwEEPROMResetEventCountGet w + 1) NW_MAX_RESET_EVENT <= j ->
   slot_bytes (exec (nwEEPROMResetEventSetNew ev index) w) j = slot_bytes w j).
Proof.
  change NW_MAX_RESET_EVENT with 10. intros Hc.
  pose proof (shift_count_eq w Hc) as Hs.
  assert (same_cells_outside 37
            (39 + 37 * Z.min (eval nwEEPROMResetEventCountGet w + 1) 10)
            w (exec (nwEEPROMResetEventSetNew ev index) w)) as Hf.
  { intros a Ha. symmetry. apply SetNew_cells_frame; lia. }
  split; [exact Hf|]. split.
  - unfold record_bytes. apply peek_ext. intros a Ha. symmetry. apply Hf.
    change nwInitEventAdr with 0 in Ha.
    change (Z.of_nat (Z.to_nat nwEventStrSize)) with 37 in Ha. lia.
  - intros Hj. rewrite !slot_bytes_eq. apply peek_ext. intros a Ha.
    symmetry. apply Hf. lia.
Qed.

Lemma insert_frame_witness :
  0 <= eval nwEEPROMResetEventCountGet two_events <= NW_MAX_RESET_EVENT /\
  record_bytes (exec (nwEEPROMResetEventSetNew sample_event 0) two_events) nwInitEventAdr =
    record_bytes two_events nwInitEventAdr.
Proof.
  assert (0 <= eval nwEEPROMResetEventCountGet two_events <= NW_MAX_RESET_EVENT) as H
    by (vm_compute; split; discriminate).
  split; [exact H|]. apply (insert_frame sample_event 0 two_events 0 H).
Defined.

Lemma poke_ext (bs : list byte) (c1 c2 : Z -> byte) (adr a : Z) :
  c1 a = c2 a -> poke c1 adr bs a = poke c2 adr bs a.
Proof.
  revert c1 c2 adr. induction bs as [|b r IH]; intros c1 c2 adr H; [exact H|].
  cbn [poke]. apply IH.
  destruct (decide (adr = a)) as [->|Hne].
  - rewrite !fn_lookup_insert. reflexivity.
  - rewrite !fn_lookup_insert_ne by exact Hne. exact H.
Qed.

(** X11. An insertion into a full log keeps nothing of the oldest event:
    two logs with a count of 10 that differ in slot 9 only hold the same
    bytes, in every cell, after the same event is inserted. *)
Theorem full_log_drops_oldest (ev : nwEvent) (index : Z) (w1 w2 : World) (a : Z) :
  eval nwEEPROMResetEventCountGet w1 = NW_MAX_RESET_EVENT ->
  same_cells_outside (39 + 37 * 9) 409 w1 w2 ->
  cells (exec (nwEEPROMResetEventSetNew ev index) w1) a =
  cells (exec (nwEEPROMResetEventSetNew ev index) w2) a.
Proof.
  change NW_MAX_RESET_EVENT with 10. intros Hc Hsame.
  assert (eval nwEEPROMResetEventCountGet w2 = 10) as Hc2.
  { rewrite <- Hc, !CountGet_eval. apply (f_equal int_of_bytes).
    apply peek_ext. intros x Hx. symmetry. apply Hsame. lia. }
  assert (shift_count w1 = 9) as Hs1 by (rewrite shift_count_eq; lia).
  assert (shift_count w2 = 9) as Hs2 by (rewrite shift_count_eq; lia).
  rewrite !SetNew_cells, Hs1, Hs2.
  apply poke_ext, poke_ext.
  rewrite !shift_loop_cells by lia. cbn [touch cells].
  destruct ((76 <=? a) && (a <? 76 + 37 * Z.of_nat (Z.to_nat 9))) eqn:E.
  - apply andb_true_iff in E as [E1 E2].
    apply Z.leb_le in E1. apply Z.ltb_lt in E2. apply Hsame. lia.
  - apply Hsame. apply andb_false_iff in E as [E|E];
      [apply Z.leb_gt in E | apply Z.ltb_ge in E]; lia.
Qed.

Lemma full_log_drops_oldest_witness :
  eval nwEEPROMResetEventCountGet full_log = NW_MAX_RESET_EVENT /\
  same_cells_outside (39 + 37 * 9) 409 full_log full_log_other /\
  cells (exec (nwEEPROMResetEventSetNew sample_event 0) full_log) 400 =
  cells (exec (nwEEPROMResetEventSetNew sample_event 0) full_log_other) 400.
Proof.
  assert (eval nwEEPROMResetEventCountGet full_log = NW_MAX_RESET_EVENT) as H1
    by (vm_compute; reflexivity).
  assert (same_cells_outside (39 + 37 * 9) 409 full_log full_log_other) as H2.
  { intros a Ha. unfold full_log_other. cbn [cells].
    symmetry. apply fn_lookup_insert_ne. lia. }
  split; [exact H1|]. split; [exact H2|].
  apply (full_log_drops_oldest sample_event 0 full_log full_log_other 400 H1 H2).
Defined.

(** ** A sequence of insertions *)

Lemma insert_all_cons (ev : nwEvent) (evs : list nwEvent) (w : World) :
  insert_all (ev :: evs) w = insert_all evs (exec (nwEEPROMResetEventSetNew ev 0) w).
Proof. reflexivity. Qed.

Lemma SetNew_count_valid (ev : nwEvent) (index : Z) (w : World) :
  0 <= eval nwEEPROMResetEventCountGet w <= 10 ->
  eval nwEEPROMResetEventCountGet (exec (nwEEPROMResetEventSetNew ev index) w) =
  Z.min (eval nwEEPROMResetEventCountGet w + 1) 10.
Proof.
  intros Hc. rewrite SetNew_count.
  destruct (shift_count_le_10 w ltac:(lia)) as [_ H]. exact H.
Qed.

(** X12. After the events of a list are inserted one after the other into
    a log with a count [c] in 0..10, the count is [min(c + n, 10)] for
    the [n] events of the list, slot [k] holds the serialised event that
    was inserted [k] insertions before the last, for [k] below 10, and
    the slots from [n] up to the count hold what the slots [n] places
    before them held: the log keeps the ten most recent events, the
    newest first. *)
Theorem insert_all_log (evs : list nwEvent) (w : World) :
  0 <= eval nwEEPROMResetEventCountGet w <= NW_MAX_RESET_EVENT ->
  eval nwEEPROMResetEventCountGet (insert_all evs w) =
    Z.min (eval nwEEPROMResetEventCountGet w + Z.of_nat (length evs)) NW_MAX_RESET_EVENT /\
  (forall (k : nat) (ev : nwEvent),
     (k < 10)%nat -> rev evs !! k = Some ev ->
     slot_bytes (insert_all evs w) (Z.of_nat k) = nwEventStr_bytes (nwEvent_to_Str ev)) /\
  (forall k : Z,
     Z.of_nat (length evs) <= k <
       Z.min (eval nwEEPROMResetEventCountGet w + Z.of_nat (length evs)) NW_MAX_RESET_EVENT ->
     slot_bytes (insert_all evs w) k = slot_bytes w (k - Z.of_nat (length evs))).
Proof.
  change NW_MAX_RESET_EVENT with 10.
  revert w. induction evs as [|ev evs IH]; intros w Hc.
  - cbn [insert_all foldl length rev]. split; [|split].
    + change (Z.of_nat 0) with 0. lia.
    + intros k e _ H. discriminate H.
    + intros k Hk. f_equal. change (Z.of_nat 0) with 0. lia.
  - rewrite insert_all_cons.
    set (w1 := exec (nwEEPROMResetEventSetNew ev 0) w).
    assert (eval nwEEPROMResetEventCountGet w1 =
            Z.min (eval nwEEPROMResetEventCountGet w + 1) 10) as Hc1
      by (apply SetNew_count_valid; exact Hc).
    destruct (IH w1 ltac:(lia)) as (IHc & IHnew & IHold).
    rewrite Hc1 in IHc, IHold. cbn [length]. rewrite Nat2Z.inj_succ.
    split; [|split].
    + rewrite IHc. lia.
    + intros k e Hk He. cbn [rev] in He.
      destruct (decide (k < length evs)%nat) as [Hlt|Hge].
      * rewrite lookup_app_l in He by (rewrite length_rev; exact Hlt).
        apply IHnew; assumption.
      * rewrite lookup_app_r in He by (rewrite length_rev; lia).
        rewrite length_rev in He.
        destruct (k - length evs)%nat as [|m] eqn:Ek; [|destruct m; discriminate He].
        injection He as <-.
        rewrite IHold by lia.
        replace (Z.of_nat k - Z.of_nat (length evs)) with 0 by lia.
        apply SetNew_slot_0.
    + intros k Hk. rewrite IHold by lia.
      unfold w1. rewrite SetNew_slot_shift.
      * f_equal. lia.
      * rewrite shift_count_eq by exact Hc. lia.
      * rewrite shift_count_eq by exact Hc. lia.
Qed.

Lemma insert_all_log_witness :
  0 <= eval nwEEPROMResetEventCountGet two_events <= NW_MAX_RESET_EVENT /\
  eval nwEEPROMResetEventCountGet
    (insert_all [event_at 7; event_at 8; event_at 9] two_events) =
  Z.min (eval nwEEPROMResetEventCountGet two_events +
         Z.of_nat (length [event_at 7; event_at 8; event_at 9])) NW_MAX_RESET_EVENT.
Proof.
  assert (0 <= eval nwEEPROMResetEventCountGet two_events <= NW_MAX_RESET_EVENT) as H
    by (vm_compute; split; discriminate).
  split; [exact H|].
  apply (insert_all_log [event_at 7; event_at 8; event_at 9] two_events H).
Defined.

(** ** The date and time string *)

Lemma String_DEC_one_digit (n : Z) :
  0 <= n < 10 -> String_DEC n = String (digit_char n) EmptyString.
Proof.
  intros Hn. unfold String_DEC. cbn [dec_digits].
  rewrite Z.div_small, Z.mod_small by lia. reflexivity.
Qed.

Lemma String_DEC_two_digits (n : Z) :
  10 <= n < 100 -> String_DEC n = two_digits n.
Proof.
  intros Hn. unfold String_DEC, two_digits. cbn [dec_digits].
  destruct (Z.eqb_spec (n / 10) 0) as [E|_];
    [exfalso; revert E; Z.div_mod_to_equations; lia|].
  destruct (Z.eqb_spec (n / 10 / 10) 0) as [_|E];
    [|exfalso; revert E; Z.div_mod_to_equations; lia].
  rewrite (Z.mod_small (n / 10)) by (Z.div_mod_to_equations; lia).
  reflexivity.
Qed.

Lemma String_DEC_four_digits (n : Z) :
  1000 <= n < 10000 -> String.length (String_DEC n) = 4%nat.
Proof.
  intros Hn. unfold String_DEC. cbn [dec_digits].
  destruct (Z.eqb_spec (n / 10) 0) as [E|_];
    [exfalso; revert E; Z.div_mod_to_equations; lia|].
  destruct (Z.eqb_spec (n / 10 / 10) 0) as [E|_];
    [exfalso; revert E; Z.div_mod_to_equations; lia|].
  destruct (Z.eqb_spec (n / 10 / 10 / 10) 0) as [E|_];
    [exfalso; revert E; Z.div_mod_to_equations; lia|].
  destruct (Z.eqb_spec (n / 10 / 10 / 10 / 10) 0) as [_|E];
    [|exfalso; revert E; Z.div_mod_to_equations; lia].
  reflexivity.
Qed.

Lemma string_append_assoc (a b c : string) :
  ((a ++ b) ++ c)%string = (a ++ (b ++ c))%string.
Proof. induction a as [|x a IH]; cbn [String.append]; [|rewrite IH]; reflexivity. Qed.

Lemma string_append_length (a b : string) :
  String.length (a ++ b)%string = (String.length a + String.length b)%nat.
Proof. induction a as [|x a IH]; cbn [String.append String.length]; [|rewrite IH]; reflexivity. Qed.

(** The padding of one field. *)
Lemma padded_field (str : string) (n : Z) :
  0 <= n < 100 ->
  String.append (if n <? 10 then String.append str "0" else str) (String_DEC n) =
  String.append str (two_digits n).
Proof.
  intros Hn. destruct (Z.ltb_spec n 10) as [H|H].
  - rewrite String_DEC_one_digit by lia.
    rewrite string_append_assoc. f_equal. unfold two_digits.
    rewrite Z.div_small, Z.mod_small by lia. reflexivity.
  - rewrite String_DEC_two_digits by lia. reflexivity.
Qed.

(** X13. When the broken-down time has a month, day, hour, minute and
    second of at most two digits, as [breakTime] gives them,
    [nwDateTimeString] is the calendar year, which has four digits for
    every year a [uint8_t] counts from 1970, and the five fields, each
    padded to two digits, in the layout [yyyy-mm-dd hh:mi:ss UTC]: 23
    characters in all. *)
Theorem nwDateTimeString_layout (breakTime : Z -> TimeElements) (t : Z) :
  TimeElements_wf (breakTime t) ->
  nwDateTimeString breakTime t =
    (String_DEC (tmYearToCalendar (Year (breakTime t))) ++ "-" ++
     two_digits (Month (breakTime t)) ++ "-" ++
     two_digits (Day (breakTime t)) ++ " " ++
     two_digits (Hour (breakTime t)) ++ ":" ++
     two_digits (Minute (breakTime t)) ++ ":" ++
     two_digits (Second (breakTime t)) ++ " UTC")%string /\
  String.length (String_DEC (tmYearToCalendar (Year (breakTime t)))) = 4%nat /\
  String.length (nwDateTimeString breakTime t) = 23%nat.
Proof.
  intros (Hy & Hmo & Hd & Hh & Hmi & Hs).
  assert (String.length (String_DEC (tmYearToCalendar (Year (breakTime t)))) = 4%nat) as Hy4
    by (apply String_DEC_four_digits; unfold tmYearToCalendar; lia).
  assert (nwDateTimeString breakTime t =
    (String_DEC (tmYearToCalendar (Year (breakTime t))) ++ "-" ++
     two_digits (Month (breakTime t)) ++ "-" ++
     two_digits (Day (breakTime t)) ++ " " ++
     two_digits (Hour (breakTime t)) ++ ":" ++
     two_digits (Minute (breakTime t)) ++ ":" ++
     two_digits (Second (breakTime t)) ++ " UTC")%string) as E.
  { unfold nwDateTimeString. cbv zeta.
    rewrite (padded_field _ (Second (breakTime t))) by exact Hs.
    rewrite (padded_field _ (Minute (breakTime t))) by exact Hmi.
    rewrite (padded_field _ (Hour (breakTime t))) by exact Hh.
    rewrite (padded_field _ (Day (breakTime t))) by exact Hd.
    rewrite (padded_field _ (Month (breakTime t))) by exact Hmo.
    rewrite !string_append_assoc. reflexivity. }
  split; [exact E|]. split; [exact Hy4|].
  rewrite E, !string_append_length, Hy4. reflexivity.
Qed.

Lemma nwDateTimeString_layout_witness :
  TimeElements_wf ((fun _ => sample_elements) 1700000000) /\
  String.length (nwDateTimeString (fun _ => sample_elements) 1700000000) = 23%nat.
Proof.
  assert (TimeElements_wf ((fun _ : Z => sample_elements) 1700000000)) as H
    by (unfold TimeElements_wf; cbn; lia).
  split; [exact H|].
  apply (nwDateTimeString_layout (fun _ => sample_elements) 1700000000 H).
Defined.

(** The sample time reads 2023-11-14 22:13:20 UTC. *)
Example nwDateTimeString_sample :
  nwDateTimeString (fun _ => sample_elements) 1700000000 =
  "2023-11-14 22:13:20 UTC"%string.
Proof. vm_compute. reflexivity. Qed.
